(** * liteMQ: the broker's protocol handler and persistence store

    A shallow embedding of [server.c] and [persistence.c].  C strings are
    lists of characters, the connection table is a pair of lists indexed in
    parallel, and the log directory is a finite map from paths to file
    contents.  What the broker does to the outside (opening and renaming
    files, writing to and closing descriptors, printing diagnostics) is
    recorded, in order, in a trace; what the outside answers ([accept],
    [poll], [read], the clock, failures of [fopen], [rename] and [write])
    comes in as arguments.  Signed overflow of [long] is modelled as
    two's complement wrap-around. *)

From Stdlib Require Import ZArith Ascii String List Lia.
From stdpp Require Import base gmap strings list fin_maps.

Set Default Proof Using "Type".

(** ** Characters and C strings *)

Abbreviation bytes := (list ascii).

Definition NUL : ascii := "000"%char.
Definition LF : ascii := "010"%char.
Definition SP : ascii := " "%char.

(** A string literal of the source, as the characters before its
    terminator. *)
Definition lit (s : string) : bytes := list_ascii_of_string s.

(** The characters of [s] before the first occurrence of [c]. *)
Fixpoint take_until (c : ascii) (s : bytes) : bytes :=
  match s with
  | [] => []
  | x :: s' => if decide (x = c) then [] else x :: take_until c s'
  end.

(** What the [str*] functions and the [%s] conversion see of a character
    array: its contents up to the first NUL. *)
Definition cstr (s : bytes) : bytes := take_until NUL s.

(** [strchr(s, c)], as the offset of the first [c] in [s]; [None] is the
    null pointer. *)
Fixpoint strchr (s : bytes) (c : ascii) : option nat :=
  match s with
  | [] => None
  | x :: s' => if decide (x = c) then Some 0 else S <$> strchr s' c
  end.

(** [strncmp(s, p, strlen(p)) == 0] for a literal [p]. *)
Definition starts_with (p s : bytes) : bool :=
  bool_decide (take (length p) s = p).

(** ** The C library's number conversions *)

Definition LONG_MAX : Z := 9223372036854775807.
Definition LONG_MIN : Z := -9223372036854775808.

(** Two's complement wrap-around of a 64-bit signed result. *)
Definition wrap_long (z : Z) : Z :=
  ((z - LONG_MIN) mod 2 ^ 64 + LONG_MIN)%Z.

(** [a - b] on [long] operands. *)
Definition long_sub (a b : Z) : Z := wrap_long (a - b).

Definition isspace (c : ascii) : bool :=
  let n := nat_of_ascii c in
  (n =? 32) || ((9 <=? n) && (n <=? 13)).

Definition isdigit (c : ascii) : bool :=
  let n := nat_of_ascii c in
  (48 <=? n) && (n <=? 57).

Definition digit_value (c : ascii) : Z := Z.of_nat (nat_of_ascii c) - 48.

Definition digit_char (d : Z) : ascii := ascii_of_nat (Z.to_nat (d + 48)).

Fixpoint skip_spaces (s : bytes) : bytes :=
  match s with
  | c :: s' => if isspace c then skip_spaces s' else s
  | [] => []
  end.

(** The longest prefix of decimal digits, and what follows it. *)
Fixpoint span_digits (s : bytes) : bytes * bytes :=
  match s with
  | c :: s' =>
      if isdigit c then let '(ds, r) := span_digits s' in (c :: ds, r)
      else ([], s)
  | [] => ([], [])
  end.

Definition digits_value (ds : bytes) : Z :=
  fold_left (λ acc c, 10 * acc + digit_value c)%Z ds 0%Z.

Definition clamp_long (z : Z) : Z :=
  if (z <? LONG_MIN)%Z then LONG_MIN
  else if (LONG_MAX <? z)%Z then LONG_MAX
  else z.

(** An optional sign, as [strtol] accepts it. *)
Definition strip_sign (s : bytes) : bool * bytes :=
  match s with
  | c :: t =>
      if decide (c = "-"%char) then (true, t)
      else if decide (c = "+"%char) then (false, t)
      else (false, s)
  | [] => (false, s)
  end.

(** [strtol(s, &end, 10)]: the converted value and the unconverted rest.
    Leading white space and one sign are skipped; a value out of range is
    clamped; when there is no digit, nothing is converted, the value is 0
    and [end] is [s] itself. *)
Definition strtol (s : bytes) : Z * bytes :=
  let '(neg, s2) := strip_sign (skip_spaces s) in
  let '(ds, r) := span_digits s2 in
  match ds with
  | [] => (0%Z, s)
  | _ :: _ =>
      let v := digits_value ds in
      (clamp_long (if neg then - v else v), r)
  end.

(** [strtol] finds no digit to convert in [s]. *)
Definition no_conversion (s : bytes) : Prop :=
  (span_digits (strip_sign (skip_spaces s)).2).1 = [].

(** The digits of a non-negative number, most significant first.  Twenty
    rounds cover every 64-bit magnitude. *)
Fixpoint digits_of (fuel : nat) (n : Z) (acc : bytes) : bytes :=
  match fuel with
  | O => acc
  | S fuel' =>
      let acc' := digit_char (n mod 10) :: acc in
      if (n <? 10)%Z then acc' else digits_of fuel' (n / 10) acc'
  end.

(** The [%ld] conversion of [printf]. *)
Definition fmt_ld (z : Z) : bytes :=
  if (z <? 0)%Z then "-"%char :: digits_of 20 (- z) []
  else digits_of 20 z [].

(** ** Buffered line input *)

Definition BUFFER_SIZE : nat := 1024.

(** One call of [fgets(line, room + 1, fp)] on a stream holding [s]: the
    characters stored (at most [room], ending after the first newline) and
    what is left in the stream. *)
Fixpoint fgets (room : nat) (s : bytes) {struct s} : bytes * bytes :=
  match room, s with
  | S room', c :: s' =>
      if decide (c = LF) then ([c], s')
      else let '(l, r) := fgets room' s' in (c :: l, r)
  | _, _ => ([], s)
  end.

(** [while (fgets(line, sizeof(line), fp))]: the successive contents of
    [line].  The loop ends at end of file; each round consumes at least one
    character, so [fuel] rounds suffice for a stream of [fuel]
    characters. *)
Fixpoint fgets_loop (fuel : nat) (s : bytes) : list bytes :=
  match fuel, s with
  | S fuel', _ :: _ =>
      let '(l, r) := fgets (BUFFER_SIZE - 1) s in
      l :: fgets_loop fuel' r
  | _, _ => []
  end.

Definition file_lines (content : bytes) : list bytes :=
  fgets_loop (length content) content.

(** ** The broker's environment *)

Inductive persistence_mode_t := PERSIST_NONE | PERSIST_ALL | PERSIST_TIMED.

Inductive open_mode := OpenRead | OpenWrite | OpenAppend.

(** The diagnostics of [server.c] and [persistence.c] ([printf],
    [fprintf(stderr, ...)] and [perror]), one constructor per call site. *)
Inductive report :=
| RAcceptFailed
| RNewConnection (fd : Z)
| RMaxClients
| RDisconnected (fd : Z)
| RSubscribed (fd : Z) (topic : bytes)
| RMalformedSub (fd : Z) (buffer : bytes)
| RUnknownCommand (fd : Z) (buffer : bytes)
| RReceived (topic : bytes) (fd : Z)
| RFormatError (fd : Z)
| RWriteFailed
| RMalformedPubTopic (fd : Z) (buffer : bytes)
| RMalformedPubNoNewline (fd : Z) (buffer : bytes)
| RUnexpectedData (fd : Z) (buffer : bytes)
| RPersistOpenFailed
| RTempOpenFailed
| RReplayWriteFailed
| RRenameFailed.

(** What the broker asks of the operating system. *)
Inductive event :=
| EvFopen (path : bytes) (m : open_mode) (ok : bool)
| EvRename (src dst : bytes) (ok : bool)
| EvWrite (fd : Z) (data : bytes)
| EvClose (fd : Z)
| EvNonBlock (fd : Z)
| EvReport (r : report).

(** The log directory and everything done so far, oldest first.  A file
    is held under the path it is opened by.  Two paths that the file
    system takes to one file (through [.], [..] or a doubled [/] in a
    topic, a link, or a volume that ignores case) are two entries here:
    what is stated of the files of two different topics is stated for
    topics without [/]. *)
Record world := World {
  files : gmap bytes bytes;
  trace : list event
}.

(** The failures the operating system may answer with.  A file is opened
    for reading exactly when it exists. *)
Record os_env := OsEnv {
  fopen_w_ok : bytes → bool;
  rename_ok : bytes → bytes → bool;
  write_ok : Z → bytes → bool
}.

Definition emit (e : event) (w : world) : world :=
  World (files w) (trace w ++ [e]).

Definition set_files (f : gmap bytes bytes) (w : world) : world :=
  World f (trace w).

(** The data of the [write] calls among some events. *)
Definition writes_of (fd : Z) (evs : list event) : list bytes :=
  omap (λ e, match e with
             | EvWrite fd' d => if decide (fd' = fd) then Some d else None
             | _ => None
             end) evs.

Definition all_writes (evs : list event) : list (Z * bytes) :=
  omap (λ e, match e with EvWrite fd d => Some (fd, d) | _ => None end) evs.

(** The events [w'] has beyond those of [w]. *)
Definition events_since (w w' : world) : list event :=
  drop (length (trace w)) (trace w').

(** ** persistence.c *)

Definition LOG_DIR : bytes := lit "logs".

(** [snprintf(filepath, 256, "%s/%s.log", LOG_DIR, topic)] *)
Definition log_path (topic : bytes) : bytes :=
  take 255 (LOG_DIR ++ lit "/" ++ cstr topic ++ lit ".log").

(** [snprintf(temp_filepath, 256, "%s/%s.log.tmp", LOG_DIR, topic)] *)
Definition temp_path (topic : bytes) : bytes :=
  take 255 (LOG_DIR ++ lit "/" ++ cstr topic ++ lit ".log.tmp").

(** The timestamp and the message of a line of a timed log (lines 92-96). *)
Definition parse_entry (line : bytes) : Z * bytes :=
  let '(msg_time, rest) := strtol line in
  (msg_time,
   match rest with
   | c :: rest' => if decide (c = SP) then rest' else rest
   | [] => rest
   end).

(** [fprintf(fp, "%ld %s", t, msg)] *)
Definition entry_line (t : Z) (msg : bytes) : bytes :=
  fmt_ld t ++ SP :: cstr msg.

Section Persistence.
Variable env : os_env.

(** [write(fd, data, strlen(data))] and the [perror] on failure. *)
Definition sys_write (on_fail : report) (fd : Z) (data : bytes) (w : world)
  : world :=
  let w := emit (EvWrite fd data) w in
  if write_ok env fd data then w else emit (EvReport on_fail) w.

(** Appending to a file opened with [fopen(path, "a")] or ["w"]. *)
Definition file_append (path data : bytes) (w : world) : world :=
  set_files (<[path := default [] (files w !! path) ++ data]> (files w)) w.

Definition persist_message (topic message : bytes)
    (p_mode : persistence_mode_t) (now : Z) (w : world) : world :=
  match p_mode with
  | PERSIST_NONE => w
  | _ =>
      let filepath := log_path topic in
      if fopen_w_ok env filepath then
        let w := emit (EvFopen filepath OpenAppend true) w in
        match p_mode with
        | PERSIST_TIMED => file_append filepath (entry_line now message) w
        | _ => file_append filepath (cstr message) w
        end
      else
        emit (EvReport RPersistOpenFailed)
          (emit (EvFopen filepath OpenAppend false) w)
  end.

(** The body of the replay loop for one [line] under [PERSIST_TIMED]
    (lines 88-106). *)
Definition replay_timed_line (fd : Z) (temp_filepath : bytes)
    (p_duration now : Z) (w : world) (line : bytes) : world :=
  let '(msg_time, msg_content) := parse_entry (cstr line) in
  if (long_sub now msg_time <=? p_duration)%Z then
    let w := sys_write RReplayWriteFailed fd msg_content w in
    file_append temp_filepath (entry_line msg_time msg_content) w
  else w.

(** The same under [PERSIST_ALL] (lines 108-112). *)
Definition replay_all_line (fd : Z) (w : world) (line : bytes) : world :=
  sys_write RReplayWriteFailed fd (cstr line) w.

Definition send_persisted_messages (fd : Z) (topic : bytes)
    (p_mode : persistence_mode_t) (p_duration now : Z) (w : world) : world :=
  match p_mode with
  | PERSIST_NONE => w
  | _ =>
      let filepath := log_path topic in
      let temp_filepath := temp_path topic in
      match files w !! filepath with
      | None => emit (EvFopen filepath OpenRead false) w
      | Some _ =>
          let w := emit (EvFopen filepath OpenRead true) w in
          match p_mode with
          | PERSIST_TIMED =>
              if fopen_w_ok env temp_filepath then
                (* fopen(temp_filepath, "w") creates or truncates *)
                let w := emit (EvFopen temp_filepath OpenWrite true) w in
                let w := set_files (<[temp_filepath := []]> (files w)) w in
                let lines := file_lines (default [] (files w !! filepath)) in
                let w :=
                  fold_left (replay_timed_line fd temp_filepath p_duration now)
                    lines w in
                if rename_ok env temp_filepath filepath then
                  let rewritten := default [] (files w !! temp_filepath) in
                  emit (EvRename temp_filepath filepath true)
                    (set_files
                       (<[filepath := rewritten]>
                          (delete temp_filepath (files w))) w)
                else
                  emit (EvReport RRenameFailed)
                    (emit (EvRename temp_filepath filepath false) w)
              else
                emit (EvReport RTempOpenFailed)
                  (emit (EvFopen temp_filepath OpenWrite false) w)
          | _ =>
              let lines := file_lines (default [] (files w !! filepath)) in
              fold_left (replay_all_line fd) lines w
          end
      end
  end.

End Persistence.

(** ** server.c *)

Definition MAX_CLIENTS : nat := 32.
Definition MAX_TOPIC_LEN : nat := 50.
Definition POLLIN : Z := 1.

Inductive client_type_t := CLIENT_TYPE_UNKNOWN | CLIENT_TYPE_SUBSCRIBER.

Global Instance client_type_eq_dec : EqDecision client_type_t.
Proof. solve_decision. Defined.

(** [struct pollfd], without the [revents] that [poll] fills in. *)
Record pollfd := Pollfd {
  pfd_fd : Z;
  pfd_events : Z
}.

(** [client_t]; the [topic] array is held as the C string it contains, so
    an array of zeros is the empty string. *)
Record client_t := Client {
  c_fd : Z;
  c_type : client_type_t;
  c_topic : bytes
}.

(** The two arrays of [main], indexed in parallel, and the world around. *)
Record server := Server {
  fds : list pollfd;
  clients : list client_t;
  os : world
}.

Definition with_os (f : world → world) (st : server) : server :=
  Server (fds st) (clients st) (f (os st)).

(** [fds[i].fd = v] *)
Definition set_pfd_fd (i : nat) (v : Z) (st : server) : server :=
  Server (alter (λ p, Pollfd v (pfd_events p)) i (fds st)) (clients st) (os st).

(** [fds[i].events = v] *)
Definition set_pfd_events (i : nat) (v : Z) (st : server) : server :=
  Server (alter (λ p, Pollfd (pfd_fd p) v) i (fds st)) (clients st) (os st).

(** [clients[i].fd = v] *)
Definition set_client_fd (i : nat) (v : Z) (st : server) : server :=
  Server (fds st)
    (alter (λ c, Client v (c_type c) (c_topic c)) i (clients st)) (os st).

(** [clients[i].type = t] *)
Definition set_client_type (i : nat) (t : client_type_t) (st : server)
  : server :=
  Server (fds st)
    (alter (λ c, Client (c_fd c) t (c_topic c)) i (clients st)) (os st).

(** [clients[i].topic] receives the C string [s]. *)
Definition set_client_topic (i : nat) (s : bytes) (st : server) : server :=
  Server (fds st)
    (alter (λ c, Client (c_fd c) (c_type c) s) i (clients st)) (os st).

Definition free_pollfd : pollfd := Pollfd (-1) 0.
Definition free_client : client_t := Client (-1) CLIENT_TYPE_UNKNOWN [].

Definition pfd_at (i : nat) (st : server) : pollfd :=
  default free_pollfd (fds st !! i).

Definition client_at (i : nat) (st : server) : client_t :=
  default free_client (clients st !! i).

(** The tables as [main] initialises them (lines 89-94 and 122-124). *)
Definition initial_server (server_fd : Z) (w : world) : server :=
  Server (Pollfd server_fd POLLIN :: replicate MAX_CLIENTS free_pollfd)
    (Client server_fd CLIENT_TYPE_UNKNOWN [] :: replicate MAX_CLIENTS free_client)
    w.

(** The index of the first free slot among the [n] slots from [i] on: the
    scan of lines 170-178. *)
Fixpoint first_free_slot (n i : nat) (table : list pollfd) : option nat :=
  match n with
  | O => None
  | S n' =>
      match table !! i with
      | Some p =>
          if decide (pfd_fd p = (-1)%Z) then Some i
          else first_free_slot n' (S i) table
      | None => first_free_slot n' (S i) table
      end
  end.

(** [new_socket] is what [accept] returned. *)
Definition handle_new_connection (new_socket : Z) (st : server) : server :=
  if (new_socket <? 0)%Z then with_os (emit (EvReport RAcceptFailed)) st
  else
    let st := with_os (emit (EvNonBlock new_socket)) st in
    match first_free_slot MAX_CLIENTS 1 (fds st) with
    | Some i =>
        let st := set_pfd_fd i new_socket st in
        let st := set_pfd_events i POLLIN st in
        let st := set_client_fd i new_socket st in
        with_os (emit (EvReport (RNewConnection new_socket))) st
    | None =>
        let st := with_os (emit (EvReport RMaxClients)) st in
        with_os (emit (EvClose new_socket)) st
    end.

(** The teardown repeated at lines 201-205, 231-235, 244-248 and 295-299:
    close the descriptor, free the slot, forget type and topic. *)
Definition drop_client (i : nat) (st : server) : server :=
  let st := with_os (emit (EvClose (pfd_fd (pfd_at i st)))) st in
  let st := set_pfd_fd i (-1) st in
  let st := set_client_fd i (-1) st in
  let st := set_client_type i CLIENT_TYPE_UNKNOWN st in
  set_client_topic i [] st.

(** The publisher's teardown at lines 288-290, which leaves type and topic
    as they are. *)
Definition disconnect_publisher (i : nat) (st : server) : server :=
  let st := with_os (emit (EvClose (pfd_fd (pfd_at i st)))) st in
  let st := set_pfd_fd i (-1) st in
  set_client_fd i (-1) st.

(** ["MSG %s\n%s"] *)
Definition frame (pub_topic msg : bytes) : bytes :=
  lit "MSG " ++ cstr pub_topic ++ LF :: cstr msg.

Section Server.
Variable env : os_env.

(** The body of the forwarding loop for slot [j] (lines 269-279).  What
    [snprintf] returns is the length of the whole frame, whether it fits
    or not. *)
Definition forward_to_slot (table : list pollfd) (cls : list client_t)
    (pub_topic msg : bytes) (j : nat) (w : world) : world :=
  let p := default free_pollfd (table !! j) in
  let c := default free_client (cls !! j) in
  if bool_decide (pfd_fd p ≠ (-1)%Z)
     && bool_decide (c_type c = CLIENT_TYPE_SUBSCRIBER)
     && bool_decide (c_topic c = cstr pub_topic)
  then
    let message_to_send := frame pub_topic msg in
    let bytes_to_send := length message_to_send in
    if bool_decide (BUFFER_SIZE ≤ bytes_to_send) then
      emit (EvReport (RFormatError (c_fd c))) w
    else sys_write env RWriteFailed (c_fd c) message_to_send w
  else w.

(** [for (int j = 1; j <= MAX_CLIENTS; j++)], as [n] rounds from [j]. *)
Fixpoint forward_loop (n j : nat) (table : list pollfd)
    (cls : list client_t) (pub_topic msg : bytes) (w : world) : world :=
  match n with
  | O => w
  | S n' =>
      forward_loop n' (S j) table cls pub_topic msg
        (forward_to_slot table cls pub_topic msg j w)
  end.

Definition forward_to_subscribers (pub_topic msg : bytes) (st : server)
  : server :=
  with_os (forward_loop MAX_CLIENTS 1 (fds st) (clients st) pub_topic msg) st.

(** [read(pfd->fd, buffer, BUFFER_SIZE - 1)]: [None] is an error,
    [Some d] the bytes the peer has sent ([[]] at end of stream); the
    result is [valread] and the bytes stored. *)
Definition sys_read (incoming : option bytes) : Z * bytes :=
  match incoming with
  | None => ((-1)%Z, [])
  | Some d =>
      let got := take (BUFFER_SIZE - 1) d in
      (Z.of_nat (length got), got)
  end.

(** Where the first block of the handler leaves control. *)
Inductive flow := Return (st : server) | Continue (st : server).

(** Lines 211-251: the commands of a client still unknown. *)
Definition identify_client (i : nat) (buffer : bytes)
    (p_mode : persistence_mode_t) (p_duration now : Z) (st : server) : flow :=
  let fd := pfd_fd (pfd_at i st) in
  if decide (c_type (client_at i st) = CLIENT_TYPE_UNKNOWN) then
    if starts_with (lit "SUB ") buffer then
      let topic_start := drop 4 buffer in
      let topic_len :=
        match strchr topic_start LF with
        | Some newline_pos => newline_pos
        | None => length topic_start
        end in
      if bool_decide (0 < topic_len) && bool_decide (topic_len < MAX_TOPIC_LEN)
      then
        let st := set_client_type i CLIENT_TYPE_SUBSCRIBER st in
        let st := set_client_topic i (take topic_len topic_start) st in
        let st :=
          with_os (emit (EvReport
                           (RSubscribed fd (c_topic (client_at i st))))) st in
        Continue
          (with_os (send_persisted_messages env fd (c_topic (client_at i st))
                      p_mode p_duration now) st)
      else
        Continue
          (drop_client i
             (with_os (emit (EvReport (RMalformedSub fd buffer))) st))
    else if starts_with (lit "PUB ") buffer then Continue st
    else
      Return
        (drop_client i
           (with_os (emit (EvReport (RUnknownCommand fd buffer))) st))
  else Continue st.

(** Lines 253-300: a publish from anyone, or anything else from a
    subscriber.  [buffer] is the C string in [char buffer[1024]], which
    [handle_client_data] fills with at most [BUFFER_SIZE - 1] characters:
    the properties of a publish are stated through [handle_client_data]. *)
Definition publish_or_reject (i : nat) (buffer : bytes)
    (p_mode : persistence_mode_t) (now : Z) (st : server) : server :=
  let fd := pfd_fd (pfd_at i st) in
  if starts_with (lit "PUB ") buffer then
    let st :=
      match strchr buffer LF with
      | Some msg_start =>
          let topic_len := (Z.of_nat msg_start - 4)%Z in
          if bool_decide (0 < topic_len)%Z
             && bool_decide (topic_len < Z.of_nat MAX_TOPIC_LEN)%Z
          then
            let pub_topic := take (Z.to_nat topic_len) (drop 4 buffer) in
            let msg := drop (S msg_start) buffer in
            let st :=
              with_os (emit (EvReport (RReceived pub_topic fd))) st in
            let st :=
              with_os (persist_message env pub_topic msg p_mode now) st in
            forward_to_subscribers pub_topic msg st
          else with_os (emit (EvReport (RMalformedPubTopic fd buffer))) st
      | None =>
          with_os (emit (EvReport (RMalformedPubNoNewline fd buffer))) st
      end in
    disconnect_publisher i st
  else if decide (c_type (client_at i st) = CLIENT_TYPE_SUBSCRIBER) then
    drop_client i (with_os (emit (EvReport (RUnexpectedData fd buffer))) st)
  else st.

(** The handler for slot [i] (that is, [&fds[i]] and [&clients[i]], as
    [main] calls it), at clock reading [now]. *)
Definition handle_client_data (i : nat) (incoming : option bytes)
    (p_mode : persistence_mode_t) (p_duration now : Z) (st : server)
  : server :=
  let '(valread, data) := sys_read incoming in
  if (valread <=? 0)%Z then
    drop_client i
      (with_os (emit (EvReport (RDisconnected (pfd_fd (pfd_at i st))))) st)
  else
    let buffer := cstr data in
    match identify_client i buffer p_mode p_duration now st with
    | Return st => st
    | Continue st => publish_or_reject i buffer p_mode now st
    end.

End Server.

(** ** One round of the loop of [main] *)

(** What [poll] and the calls after it bring: the result of [accept] when
    the listening socket is readable, and for each slot [i] whether it is
    readable and then what [read] gets. *)
Record poll_result := PollResult {
  accepted : option Z;
  readable : nat → option (option bytes)
}.

(** The [revents] of the client slots: [poll] reports nothing for a slot
    whose descriptor is negative when it is called. *)
Definition revents_of (polled : list pollfd)
    (ready : nat → option (option bytes)) (i : nat) : option (option bytes) :=
  match polled !! i with
  | Some p => if decide (pfd_fd p = (-1)%Z) then None else ready i
  | None => None
  end.

Section Loop.
Variable env : os_env.

(** [for (int i = 1; i <= MAX_CLIENTS; i++)] of lines 139-143. *)
Fixpoint serve_clients (n i : nat) (revents : nat → option (option bytes))
    (p_mode : persistence_mode_t) (p_duration now : Z) (st : server)
  : server :=
  match n with
  | O => st
  | S n' =>
      let st :=
        match revents i with
        | Some incoming =>
            if decide (pfd_fd (pfd_at i st) ≠ (-1)%Z)
            then handle_client_data env i incoming p_mode p_duration now st
            else st
        | None => st
        end in
      serve_clients n' (S i) revents p_mode p_duration now st
  end.

(** One turn of [while (1)]: [poll], then the listening socket, then the
    clients. *)
Definition serve_round (pr : poll_result) (p_mode : persistence_mode_t)
    (p_duration now : Z) (st : server) : server :=
  let revents := revents_of (fds st) (readable pr) in
  let st :=
    match accepted pr with
    | Some new_socket => handle_new_connection new_socket st
    | None => st
    end in
  serve_clients MAX_CLIENTS 1 revents p_mode p_duration now st.

End Loop.

(** ** Concrete environments *)

Definition reliable_os : os_env :=
  OsEnv (λ _, true) (λ _ _, true) (λ _ _, true).

Definition empty_world : world := World ∅ [].

Definition only_slot (i : nat) (data : bytes) (j : nat)
  : option (option bytes) :=
  if decide (j = i) then Some (Some data) else None.

(** * Vocabulary of the properties

    Predicates and derived functions the statements below are written
    with, and the concrete states and inputs of the worked examples. *)

(** A call into the persistence store, as the broker makes them. *)
Inductive store_call :=
| Append (topic message : bytes) (now : Z)
| Replay (fd : Z) (topic : bytes) (p_duration now : Z).

Definition run_call (env : os_env) (p_mode : persistence_mode_t)
    (w : world) (c : store_call) : world :=
  match c with
  | Append topic message now => persist_message env topic message p_mode now w
  | Replay fd topic p_duration now =>
      send_persisted_messages env fd topic p_mode p_duration now w
  end.

(** Every slot a client can occupy holds an open descriptor. *)
Definition table_full (st : server) : Prop :=
  ∀ k, 1 ≤ k ≤ MAX_CLIENTS →
       ∃ p, fds st !! k = Some p ∧ pfd_fd p ≠ (-1)%Z.

(** A table whose thirty-two client slots hold descriptors 4 to 35. *)
Definition crowded_server : server :=
  Server
    (Pollfd 3 POLLIN
       :: map (λ k, Pollfd (Z.of_nat k + 4) POLLIN) (seq 0 MAX_CLIENTS))
    (Client 3 CLIENT_TYPE_UNKNOWN []
       :: map (λ k, Client (Z.of_nat k + 4) CLIENT_TYPE_UNKNOWN [])
            (seq 0 MAX_CLIENTS))
    empty_world.

(** No slot of the table is marked as a subscriber. *)
Definition no_subscriber (st : server) : Prop :=
  Forall (λ c, c_type c = CLIENT_TYPE_UNKNOWN) (clients st).

(** The states the broker gets into, round after round, from the tables
    [main] sets up. *)
Inductive reachable (env : os_env) (p_mode : persistence_mode_t)
    (p_duration : Z) : server → Prop :=
| reachable_start (server_fd : Z) (w : world) :
    reachable env p_mode p_duration (initial_server server_fd w)
| reachable_round (pr : poll_result) (now : Z) (st : server) :
    reachable env p_mode p_duration st →
    reachable env p_mode p_duration
      (serve_round env pr p_mode p_duration now st).

(** The test of line 269 on slot [j]. *)
Definition subscribed_to (table : list pollfd) (cls : list client_t)
    (pub_topic : bytes) (j : nat) : bool :=
  bool_decide (pfd_fd (default free_pollfd (table !! j)) ≠ (-1)%Z)
  && bool_decide (c_type (default free_client (cls !! j))
                  = CLIENT_TYPE_SUBSCRIBER)
  && bool_decide (c_topic (default free_client (cls !! j)) = cstr pub_topic).

(** What the loop does for a slot that passes the test. *)
Definition forward_events (env : os_env) (cls : list client_t)
    (pub_topic msg : bytes) (j : nat) : list event :=
  let fd := c_fd (default free_client (cls !! j)) in
  if bool_decide (BUFFER_SIZE ≤ length (frame pub_topic msg)) then
    [EvReport (RFormatError fd)]
  else
    EvWrite fd (frame pub_topic msg)
      :: (if write_ok env fd (frame pub_topic msg) then []
          else [EvReport RWriteFailed]).

(** Two clients, on descriptors 5 and 6, have connected to a fresh
    broker listening on descriptor 3. *)
Definition two_clients : server :=
  handle_new_connection 6
    (handle_new_connection 5 (initial_server 3 empty_world)).

Definition weather_report : bytes := lit "PUB weather" ++ LF :: lit "sunny".

(** The scenario of the specification: a client subscribes to [weather],
    then another publishes [sunny] to it.  Three rounds of the loop of
    [main]: the first client connects; the second connects while the first
    sends its [SUB]; the second sends its [PUB]. *)
Definition weather_scenario : server :=
  let run pr := serve_round reliable_os pr PERSIST_NONE 0 100 in
  let st := initial_server 3 empty_world in
  let st := run (PollResult (Some 5%Z) (λ _, None)) st in
  let st := run (PollResult (Some 6%Z) (only_slot 1 (lit "SUB weather"))) st in
  run (PollResult None (only_slot 2 weather_report)) st.

(** A table in which slot 1 is a subscriber to [t]. *)
Definition one_subscriber : server :=
  Server
    (Pollfd 3 POLLIN :: Pollfd 5 POLLIN :: Pollfd 6 POLLIN
       :: replicate 30 free_pollfd)
    (Client 3 CLIENT_TYPE_UNKNOWN []
       :: Client 5 CLIENT_TYPE_SUBSCRIBER (lit "t")
       :: Client 6 CLIENT_TYPE_UNKNOWN []
       :: replicate 30 free_client)
    empty_world.


(** The values of type [long] (and of [time_t]). *)
Definition in_long (z : Z) : Prop := (LONG_MIN ≤ z ≤ LONG_MAX)%Z.

(** A line that ends with its newline. *)
Definition terminated (l : bytes) : Prop :=
  ∃ body, l = body ++ [LF] ∧ LF ∉ body.

(** What [fgets] stores and then stops at, whatever follows in the file: a
    terminated line that fits, or a buffer filled without meeting a
    newline. *)
Definition closed (room : nat) (l : bytes) : Prop :=
  (terminated l ∧ length l ≤ room) ∨ ((LF ∉ l) ∧ length l = room).

(** The lines of a file: closed chunks, and possibly a last one cut short
    by the end of the file. *)
Inductive chunked : list bytes → Prop :=
| chunked_nil : chunked []
| chunked_last (l : bytes) :
    l ≠ [] → LF ∉ l → length l ≤ BUFFER_SIZE - 1 → chunked [l]
| chunked_cons (l : bytes) (ls : list bytes) :
    l ≠ [] → closed (BUFFER_SIZE - 1) l → chunked ls → chunked (l :: ls).

Definition log_of (topic : bytes) (w : world) : bytes :=
  default [] (files w !! log_path topic).

(** Publishes to one topic, each with the clock reading at its time. *)
Definition publish_sequence (env : os_env) (topic : bytes)
    (p_mode : persistence_mode_t) (pubs : list (Z * bytes)) (w : world)
  : world :=
  fold_left (λ w p, persist_message env topic p.2 p_mode p.1 w) pubs w.

(** The sentence of the specification: the log of a fresh topic, read line
    by line after the publishes, holds the published messages, one per
    line. *)
Definition publishes_are_lines (env : os_env) (topic : bytes)
    (pubs : list (Z * bytes)) (w : world) : Prop :=
  file_lines (log_of topic (publish_sequence env topic PERSIST_ALL pubs w))
  = map snd pubs.

(** A message that is one line of the log: no NUL, one newline, at its
    end, and short enough for the line buffer. *)
Definition one_line (m : bytes) : Prop :=
  (NUL ∉ m) ∧ terminated m ∧ length m ≤ BUFFER_SIZE - 1.

(** Closing a decidable goal by evaluation. *)
Ltac decide_now := apply (bool_decide_unpack _); vm_compute; exact I.

(** The entries of a timed log, as the replay loop reads them: one per
    line, each with its timestamp and its bare message. *)
Definition entries_of (lines : list bytes) : list (Z * bytes) :=
  map (λ line, parse_entry (cstr line)) lines.

(** The test of line 98. *)
Definition fresh (now p_duration : Z) (e : Z * bytes) : bool :=
  (long_sub now e.1 <=? p_duration)%Z.

(** The line an entry is written back as. *)
Definition row (e : Z * bytes) : bytes := entry_line e.1 e.2.

Definition write_events (env : os_env) (fd : Z) (data : bytes)
  : list event :=
  EvWrite fd data
    :: (if write_ok env fd data then [] else [EvReport RReplayWriteFailed]).

(** A timed log of the topic [weather] with an entry from time 100 and one
    from time 195. *)
Definition weather_log : bytes :=
  lit "100 old" ++ LF :: lit "195 new" ++ [LF].

Definition weather_world : world :=
  World {[ log_path (lit "weather") := weather_log ]} [].

(** What a replay under [PERSIST_ALL] does, as a function of the log
    directory alone. *)
Definition all_replay_events (env : os_env) (fd : Z) (topic : bytes)
    (dir : gmap bytes bytes) : list event :=
  match dir !! log_path topic with
  | None => [EvFopen (log_path topic) OpenRead false]
  | Some content =>
      EvFopen (log_path topic) OpenRead true
        :: flat_map (λ l, write_events env fd (cstr l)) (file_lines content)
  end.

(** The entries a timed replay keeps, for a log directory in which the
    log of the topic holds [content]. *)
Definition kept_entries (topic : bytes) (p_duration now : Z)
    (content : bytes) : list (Z * bytes) :=
  let read :=
    if decide (temp_path topic = log_path topic) then [] else content in
  List.filter (fresh now p_duration) (entries_of (file_lines read)).

(** A log the replay can rewrite without moving its line boundaries: no NUL
    in it, and lines short enough to fit the line buffer again once their
    timestamp is printed anew. *)
Definition tidy_log (content : bytes) : Prop :=
  (NUL ∉ content) ∧ Forall (λ l, length l ≤ 1000) (file_lines content).

(** The sentence of the specification at one log directory: two replays in
    a row, with the same clock reading, write the same messages. *)
Definition replays_agree (env : os_env) (fd : Z) (topic : bytes)
    (p_mode : persistence_mode_t) (p_duration now : Z) (w : world) : Prop :=
  let w1 := send_persisted_messages env fd topic p_mode p_duration now w in
  let w2 := send_persisted_messages env fd topic p_mode p_duration now w1 in
  all_writes (events_since w w1) = all_writes (events_since w1 w2).

(** A timed log whose first line fills the 1023-character line buffer and
    has no space after its timestamp. *)
Definition long_line_log : bytes :=
  "5"%char :: replicate 1022 "x"%char ++ lit "7 y" ++ [LF].

Definition long_line_world : world :=
  World {[ log_path (lit "weather") := long_line_log ]} [].

(** A timed log with a NUL byte in its first line. *)
Definition nul_log : bytes :=
  lit "5 a" ++ NUL :: lit "b" ++ LF :: lit "7 c" ++ [LF].

Definition nul_world : world :=
  World {[ log_path (lit "weather") := nul_log ]} [].

(** * The rest of the program

    The clients' side of the protocol ([publisher.c], [subscriber.c]), the
    helper of [utils.c], and the predicates the further properties are
    stated with. *)

(** ** publisher.c and subscriber.c *)


(** What the subscriber sends: [snprintf(message, 1024, "SUB %s", argv[1])],
    then [send] of [strlen(message)] bytes. *)
Definition subscriber_message (topic : bytes) : bytes :=
  take 1023 (lit "SUB " ++ cstr topic).

(** ** utils.c *)

(** The two [perror] calls of [set_non_blocking]. *)
Inductive fcntl_error := GetflFailed | SetflFailed.

Section Utils.
(** The flag of [<fcntl.h>]. *)
Variable O_NONBLOCK : Z.
(** Whether [fcntl(fd, F_SETFL, flags)] succeeds. *)
Variable setfl_ok : Z → Z → bool.

(** [fcntl(fd, F_GETFL, 0)] on a table of the status flags of the open
    descriptors: the flags, or -1 for a descriptor that is not open. *)
Definition fcntl_getfl (fd : Z) (flags_of : gmap Z Z) : Z :=
  default (-1)%Z (flags_of !! fd).

(** The table after the call, and the error reported, if any. *)
Definition set_non_blocking (fd : Z) (flags_of : gmap Z Z)
  : gmap Z Z * option fcntl_error :=
  let flags := fcntl_getfl fd flags_of in
  if decide (flags = (-1)%Z) then (flags_of, Some GetflFailed)
  else if setfl_ok fd (Z.lor flags O_NONBLOCK) then
    (<[fd := Z.lor flags O_NONBLOCK]> flags_of, None)
  else (flags_of, Some SetflFailed).

End Utils.

(** ** Predicates on the tables *)

(** Slot [i] apart, [st'] has the tables of [st]. *)
Definition same_elsewhere (i : nat) (st st' : server) : Prop :=
  length (fds st') = length (fds st)
  ∧ length (clients st') = length (clients st)
  ∧ ∀ j, j ≠ i →
         fds st' !! j = fds st !! j ∧ clients st' !! j = clients st !! j.

(** Both tables have their [MAX_CLIENTS + 1] entries and agree, slot by
    slot, on the descriptor. *)
Definition tables_in_step (st : server) : Prop :=
  length (fds st) = S MAX_CLIENTS
  ∧ length (clients st) = S MAX_CLIENTS
  ∧ ∀ j p c, fds st !! j = Some p → clients st !! j = Some c →
             pfd_fd p = c_fd c.

(** The descriptors a list of events closes. *)
Definition closes_of (evs : list event) : list Z :=
  omap (λ e, match e with EvClose fd => Some fd | _ => None end) evs.

(** The files a list of events opens or tries to open. *)
Definition opens_of (evs : list event) : list bytes :=
  omap (λ e, match e with EvFopen p _ _ => Some p | _ => None end) evs.


(** ** Predicates on the events *)

(** [w'] has the events of [w] and, after them, events that all satisfy
    [P]. *)
Definition grows_by (P : event → Prop) (w w' : world) : Prop :=
  ∃ evs, trace w' = trace w ++ evs ∧ Forall P evs.

(** What the persistence store may ask of the operating system when it
    works for descriptor [fd] ([None] when it appends, and has no
    descriptor to write to). *)
Definition store_event (fd : option Z) (e : event) : Prop :=
  match e with
  | EvFopen _ _ _ | EvRename _ _ _ => True
  | EvWrite fd' _ => fd = Some fd'
  | EvReport r =>
      match r with
      | RPersistOpenFailed | RTempOpenFailed | RReplayWriteFailed
      | RRenameFailed => True
      | _ => False
      end
  | EvClose _ | EvNonBlock _ => False
  end.

(** The notices of the handler itself, those of the forwarding loop
    apart. *)
Definition handler_report (r : report) : Prop :=
  match r with
  | RDisconnected _ | RSubscribed _ _ | RMalformedSub _ _
  | RUnknownCommand _ _ | RReceived _ _ | RMalformedPubTopic _ _
  | RMalformedPubNoNewline _ _ | RUnexpectedData _ _ => True
  | _ => False
  end.

(** Anything but a [write] to a descriptor. *)
Definition no_write (e : event) : Prop :=
  match e with
  | EvWrite _ _ => False
  | _ => True
  end.

(** Anything but closing a descriptor or changing its mode. *)
Definition keeps_descriptors (e : event) : Prop :=
  match e with
  | EvClose _ | EvNonBlock _ => False
  | _ => True
  end.

(** Slot [i] holds descriptor [fd], open since [w]. *)
Definition still_open (i : nat) (fd : Z) (w : world) (st : server) : Prop :=
  pfd_fd <$> fds st !! i = Some fd
  ∧ is_Some (clients st !! i)
  ∧ grows_by keeps_descriptors w (os st).

(** Slot [i] is free in both tables, and the events since [w] close
    descriptor [fd], once, and no other. *)
Definition hung_up (i : nat) (fd : Z) (w : world) (st : server) : Prop :=
  pfd_fd <$> fds st !! i = Some (-1)%Z
  ∧ c_fd <$> clients st !! i = Some (-1)%Z
  ∧ closes_of (events_since w (os st)) = [fd].

(** ** Predicates on the files *)

(** [w'] differs from [w] at most in the files [paths]. *)
Definition files_differ_in (paths : list bytes) (w w' : world) : Prop :=
  ∀ path, path ∉ paths → files w' !! path = files w !! path.

(** A published message the timed log can hold as one entry: a timestamp
    a [time_t] can have, and a message without NUL that is one line of at
    most 1000 bytes, its newline included. *)
Definition loggable (p : Z * bytes) : Prop :=
  in_long (fst p) ∧ (NUL ∉ snd p) ∧ terminated (snd p) ∧ length (snd p) ≤ 1000.

(** Slot [i] is free in both tables. *)
Definition freed (i : nat) (st : server) : Prop :=
  pfd_fd <$> fds st !! i = Some (-1)%Z ∧ c_fd <$> clients st !! i = Some (-1)%Z.

(** Descriptor [fd] has been closed since [w]. *)
Definition closed_since (fd : Z) (w w' : world) : Prop :=
  ∃ evs, trace w' = trace w ++ evs ∧ fd ∈ closes_of evs.

(** ** Sentences of the specification

    Three sentences as the specification has them, each to be compared
    with what the code does, and the inputs on which they fail. *)









(** * Properties *)

(** ** Persistence mode [none] *)

(** C8: under [PERSIST_NONE] appending and replaying are no-ops.  Whatever
    the topic, the message and the state of the log directory, neither call
    changes a file or issues a system call ([fopen] and [write] included),
    and neither does any sequence of such calls, however long. *)
Theorem none_mode_is_inert (env : os_env) :
  (∀ topic message now w,
     persist_message env topic message PERSIST_NONE now w = w)
  ∧ (∀ fd topic p_duration now w,
       send_persisted_messages env fd topic PERSIST_NONE p_duration now w = w)
  ∧ (∀ calls w, fold_left (run_call env PERSIST_NONE) calls w = w).
Proof.
  split; [reflexivity |]. split; [reflexivity |].
  intros calls. induction calls as [| c calls IH]; intros w; simpl.
  - reflexivity.
  - destruct c; simpl; apply IH.
Qed.

(** ** A full connection table *)

Lemma first_free_slot_none (table : list pollfd) (n i : nat) :
  (∀ k, i ≤ k < i + n → ∃ p, table !! k = Some p ∧ pfd_fd p ≠ (-1)%Z) →
  first_free_slot n i table = None.
Proof.
  revert i. induction n as [| n IH]; intros i Hfull; simpl.
  - reflexivity.
  - destruct (Hfull i) as (p & Hp & Hfd); [lia |].
    rewrite Hp. destruct (decide (pfd_fd p = (-1)%Z)) as [E | _].
    + contradiction.
    + apply IH. intros k Hk. apply Hfull. lia.
Qed.

(** C6: when slots 1 to [MAX_CLIENTS] are all taken, a further accepted
    connection is closed at once and not registered: both tables are left
    exactly as they were, no file changes, and the handler returns (after
    a notice on standard output) to the loop of [main], which goes on to
    serve the clients of this round from the tables as they were. *)
Theorem full_table_rejects (st : server) (new_socket : Z) :
  table_full st →
  (0 ≤ new_socket)%Z →
  let st' := handle_new_connection new_socket st in
  fds st' = fds st
  ∧ clients st' = clients st
  ∧ files (os st') = files (os st)
  ∧ trace (os st') =
      trace (os st)
        ++ [EvNonBlock new_socket; EvReport RMaxClients; EvClose new_socket]
  ∧ ∀ env ready p_mode p_duration now,
      serve_round env (PollResult (Some new_socket) ready) p_mode p_duration
        now st
      = serve_clients env MAX_CLIENTS 1 (revents_of (fds st) ready) p_mode
          p_duration now st'.
Proof.
  intros Hfull Hsock. unfold handle_new_connection.
  destruct (new_socket <? 0)%Z eqn:E; [lia |].
  rewrite first_free_slot_none.
  - split; [done |]. split; [done |]. split; [done |].
    split; [simpl; by rewrite <- !app_assoc |].
    intros env ready p_mode p_duration now.
    unfold serve_round, handle_new_connection. cbn [accepted readable].
    by rewrite E, first_free_slot_none
      by (intros k Hk; apply Hfull; unfold MAX_CLIENTS in *; lia).
  - intros k Hk. apply Hfull. unfold MAX_CLIENTS in *. lia.
Qed.

Lemma crowded_server_full : table_full crowded_server.
Proof.
  intros k [Hlo Hhi]. unfold MAX_CLIENTS in Hhi.
  destruct k as [| k]; [lia |].
  do 32 (destruct k as [| k]; [eexists; split; [reflexivity | done] |]).
  lia.
Qed.

Lemma full_table_rejects_witness :
  let st' := handle_new_connection 36 crowded_server in
  fds st' = fds crowded_server
  ∧ clients st' = clients crowded_server
  ∧ files (os st') = files (os crowded_server)
  ∧ trace (os st') =
      trace (os crowded_server)
        ++ [EvNonBlock 36; EvReport RMaxClients; EvClose 36].
Proof.
  destruct (full_table_rejects crowded_server 36)
    as (H1 & H2 & H3 & H4 & _).
  - exact crowded_server_full.
  - lia.
  - repeat split; assumption.
Defined.

(** ** C strings *)

Lemma strchr_take_until (s : bytes) (c : ascii) (k : nat) :
  strchr s c = Some k →
  take k s = take_until c s ∧ k = length (take_until c s)
  ∧ s !! k = Some c.
Proof.
  revert k. induction s as [| x s IH]; intros k; simpl; [done |].
  destruct (decide (x = c)) as [-> | Hne].
  - intros [= <-]. done.
  - destruct (strchr s c) as [k' |] eqn:E; simpl; [| done].
    intros [= <-]. destruct (IH k' eq_refl) as (H1 & H2 & H3).
    simpl. rewrite H1. auto.
Qed.

Lemma strchr_none (s : bytes) (c : ascii) :
  strchr s c = None ↔ c ∉ s.
Proof.
  induction s as [| x s IH]; simpl.
  - split; [intros _; apply not_elem_of_nil | done].
  - destruct (decide (x = c)) as [-> | Hne].
    + split; [done |]. intros H. exfalso. apply H. left.
    + rewrite not_elem_of_cons. destruct (strchr s c); simpl.
      * split; [done |]. intros [_ H]. by apply IH in H.
      * split; [| done]. intros _. split; [congruence |]. by apply IH.
Qed.

Lemma take_until_absent (s : bytes) (c : ascii) :
  c ∉ s → take_until c s = s.
Proof.
  induction s as [| x s IH]; simpl; [done |].
  rewrite not_elem_of_cons. intros [Hne Hs].
  destruct (decide (x = c)); [congruence |]. by rewrite IH.
Qed.

Lemma take_until_free (s : bytes) (c : ascii) : c ∉ take_until c s.
Proof.
  induction s as [| x s IH]; simpl; [apply not_elem_of_nil |].
  destruct (decide (x = c)); [apply not_elem_of_nil |].
  rewrite not_elem_of_cons. split; [congruence | done].
Qed.

Lemma take_until_length (s : bytes) (c : ascii) :
  length (take_until c s) ≤ length s.
Proof.
  induction s as [| x s IH]; simpl; [lia |].
  destruct (decide (x = c)); simpl; lia.
Qed.

Lemma cstr_free (s : bytes) : NUL ∉ cstr s.
Proof. apply take_until_free. Qed.

Lemma cstr_id (s : bytes) : NUL ∉ s → cstr s = s.
Proof. apply take_until_absent. Qed.


Lemma starts_with_split (p s : bytes) :
  starts_with p s = true → s = p ++ drop (length p) s.
Proof.
  unfold starts_with. intros H. apply bool_decide_eq_true in H.
  rewrite <- H at 1. by rewrite take_drop.
Qed.

(** The offset of the first newline of a buffer that starts with a
    four-character command word without one. *)
Lemma strchr_after_command (p buffer : bytes) :
  LF ∉ p →
  starts_with p buffer = true →
  strchr buffer LF =
    (λ k, length p + k) <$> strchr (drop (length p) buffer) LF.
Proof.
  intros Hp Hs. rewrite (starts_with_split _ _ Hs) at 1.
  generalize (drop (length p) buffer). clear Hs. intros t.
  induction p as [| x p IH]; simpl.
  - by destruct (strchr t LF).
  - apply not_elem_of_cons in Hp as [Hx Hp].
    destruct (decide (x = LF)); [congruence |].
    rewrite IH by done. by destruct (strchr t LF).
Qed.

(** ** State bookkeeping *)

Lemma events_since_emit (w : world) (e : event) :
  events_since w (emit e w) = [e].
Proof. unfold events_since, emit. simpl. by rewrite drop_app_length. Qed.

Lemma pfd_at_lookup (i : nat) (st : server) (p : pollfd) :
  fds st !! i = Some p → pfd_at i st = p.
Proof. unfold pfd_at. by intros ->. Qed.

Lemma client_at_lookup (i : nat) (st : server) (c : client_t) :
  clients st !! i = Some c → client_at i st = c.
Proof. unfold client_at. by intros ->. Qed.

Lemma alter_to_insert {A} (f : A → A) (i : nat) (l : list A) (x : A) :
  l !! i = Some x → alter f i l = <[i := f x]> l.
Proof.
  intros H. rewrite list_insert_alter.
  apply list_alter_ext; [| done]. intros y Hy. congruence.
Qed.

(** What [drop_client] amounts to on a slot within the tables. *)
Lemma drop_client_spec (i : nat) (st : server) (p : pollfd) (c : client_t) :
  fds st !! i = Some p →
  clients st !! i = Some c →
  drop_client i st =
    Server (<[i := Pollfd (-1) (pfd_events p)]> (fds st))
      (<[i := free_client]> (clients st))
      (emit (EvClose (pfd_fd p)) (os st)).
Proof.
  intros Hp Hc. unfold drop_client, set_client_topic, set_client_type,
    set_client_fd, set_pfd_fd, with_os. simpl.
  rewrite (pfd_at_lookup _ _ _ Hp).
  rewrite !list_alter_alter_eq.
  rewrite (alter_to_insert _ _ _ _ Hp), (alter_to_insert _ _ _ _ Hc).
  reflexivity.
Qed.

(** ** The protocol handler *)

Lemma command_words_differ (buffer : bytes) :
  starts_with (lit "SUB ") buffer = true →
  starts_with (lit "PUB ") buffer = false.
Proof.
  unfold starts_with. intros H. apply bool_decide_eq_true in H.
  apply bool_decide_eq_false.
  change (length (lit "PUB ")) with (length (lit "SUB ")).
  rewrite H. discriminate.
Qed.

(** A buffer that starts with a command word is the result of a read that
    returned something. *)
Lemma read_positive (p : bytes) (d : bytes) :
  p ≠ [] →
  starts_with p (cstr (take (BUFFER_SIZE - 1) d)) = true →
  (Z.of_nat (length (take (BUFFER_SIZE - 1) d)) <=? 0)%Z = false.
Proof.
  intros Hp Hs. apply Z.leb_gt.
  destruct (take (BUFFER_SIZE - 1) d) as [| x got]; simpl; [| lia].
  apply starts_with_split in Hs. simpl in Hs. destruct p; [done |].
  discriminate.
Qed.

(** The topic length computed at lines 217-221 is that of the text before
    the first newline, or of all the text when there is none. *)
Lemma sub_topic_len (topic_start : bytes) :
  let topic_len :=
    match strchr topic_start LF with
    | Some newline_pos => newline_pos
    | None => length topic_start
    end in
  topic_len = length (take_until LF topic_start)
  ∧ take topic_len topic_start = take_until LF topic_start.
Proof.
  simpl. destruct (strchr topic_start LF) as [k |] eqn:E.
  - apply strchr_take_until in E as (H1 & H2 & _). done.
  - apply strchr_none in E. rewrite take_until_absent by done.
    split; [done |]. by rewrite take_ge.
Qed.

(** C1: a client still unknown sends [SUB <topic>] with a topic of 1 to 49
    characters, with or without a newline after it.  The handler marks the
    slot as a subscriber, records the topic and replays the log of the
    topic to the descriptor, as the specification says, but it then falls
    into the branch for unexpected data from a subscriber (line 291): the
    descriptor is closed, the slot is freed, type and topic are forgotten.
    The connection does not stay open as a subscriber. *)
Theorem subscribe_then_dropped (env : os_env) (i : nat) (d : bytes)
    (p_mode : persistence_mode_t) (p_duration now : Z) (st : server)
    (p : pollfd) (c : client_t) :
  fds st !! i = Some p →
  clients st !! i = Some c →
  c_type c = CLIENT_TYPE_UNKNOWN →
  let buffer := cstr (take (BUFFER_SIZE - 1) d) in
  starts_with (lit "SUB ") buffer = true →
  let topic := take_until LF (drop 4 buffer) in
  0 < length topic < MAX_TOPIC_LEN →
  handle_client_data env i (Some d) p_mode p_duration now st =
    Server (<[i := Pollfd (-1) (pfd_events p)]> (fds st))
      (<[i := free_client]> (clients st))
      (emit (EvClose (pfd_fd p))
         (emit (EvReport (RUnexpectedData (pfd_fd p) buffer))
            (send_persisted_messages env (pfd_fd p) topic p_mode p_duration
               now
               (emit (EvReport (RSubscribed (pfd_fd p) topic)) (os st))))).
Proof.
  intros Hp Hc Hty buffer Hsub topic Hlen.
  unfold handle_client_data, sys_read.
  rewrite (read_positive (lit "SUB ")) by done.
  fold buffer. unfold identify_client.
  rewrite (client_at_lookup _ _ _ Hc), (pfd_at_lookup _ _ _ Hp).
  destruct (decide (c_type c = CLIENT_TYPE_UNKNOWN)) as [_ | ?]; [| done].
  rewrite Hsub.
  destruct (sub_topic_len (drop 4 buffer)) as [Hk Ht].
  fold topic in Hk, Ht. rewrite Hk in Ht. rewrite Hk, Ht.
  rewrite !bool_decide_eq_true_2 by lia. simpl.
  unfold publish_or_reject. rewrite (command_words_differ _ Hsub).
  set (st1 := with_os _ _).
  assert (Hc1 : clients st1 !! i
                = Some (Client (c_fd c) CLIENT_TYPE_SUBSCRIBER topic)).
  { subst st1. simpl. rewrite !list_lookup_alter_eq, Hc. done. }
  assert (Hp1 : fds st1 !! i = Some p) by done.
  rewrite (client_at_lookup _ _ _ Hc1). simpl.
  erewrite drop_client_spec; [| exact Hp1 | exact Hc1].
  rewrite (pfd_at_lookup _ _ _ Hp1).
  subst st1. simpl. f_equal.
  - rewrite (alter_to_insert _ _ _ _ Hc).
    rewrite alter_to_insert with (x := Client (c_fd c) CLIENT_TYPE_SUBSCRIBER (c_topic c)).
    + by rewrite !list_insert_insert_eq.
    + apply list_lookup_insert_eq. by eapply lookup_lt_Some.
  - unfold client_at. simpl. rewrite !list_lookup_alter_eq, Hc. done.
Qed.

Lemma command_words_differ' (buffer : bytes) :
  starts_with (lit "PUB ") buffer = true →
  starts_with (lit "SUB ") buffer = false.
Proof.
  intros H. destruct (starts_with (lit "SUB ") buffer) eqn:E; [| done].
  apply command_words_differ in E. congruence.
Qed.


(** A publish reaches the second block of the handler with the tables
    untouched, whatever the type of the sender. *)
Lemma identify_publisher (env : os_env) (i : nat) (buffer : bytes)
    (p_mode : persistence_mode_t) (p_duration now : Z) (st : server) :
  starts_with (lit "PUB ") buffer = true →
  identify_client env i buffer p_mode p_duration now st = Continue st.
Proof.
  intros Hpub. unfold identify_client.
  destruct (decide _); [| done].
  by rewrite (command_words_differ' _ Hpub), Hpub.
Qed.

Lemma newline_after_command (buffer : bytes) :
  starts_with (lit "PUB ") buffer = true →
  LF ∈ buffer → LF ∈ drop 4 buffer.
Proof.
  intros Hpub Hnl. rewrite (starts_with_split _ _ Hpub) in Hnl.
  apply elem_of_app in Hnl as [Hnl | Hnl]; [| done].
  unfold lit in Hnl. cbn in Hnl. rewrite !elem_of_cons in Hnl.
  destruct Hnl as [? | [? | [? | [? | Hnl]]]]; try discriminate.
  by apply elem_of_nil in Hnl.
Qed.

(** The second block of the handler on a well-formed publish, whatever
    the length of [buffer]. *)
Lemma publish_well_formed (env : os_env) (i : nat) (buffer : bytes)
    (p_mode : persistence_mode_t) (now : Z) (st : server) :
  starts_with (lit "PUB ") buffer = true →
  let topic := take_until LF (drop 4 buffer) in
  let msg := drop (5 + length topic) buffer in
  LF ∈ buffer → 0 < length topic < MAX_TOPIC_LEN →
  publish_or_reject env i buffer p_mode now st =
    disconnect_publisher i
      (forward_to_subscribers env topic msg
         (with_os (persist_message env topic msg p_mode now)
            (with_os (emit (EvReport (RReceived topic (pfd_fd (pfd_at i st)))))
               st))).
Proof.
  intros Hpub topic msg Hnl Hlen.
  assert (Hidx : strchr buffer LF
                 = (λ k, 4 + k) <$> strchr (drop 4 buffer) LF).
  { apply (strchr_after_command (lit "PUB ")); [| done].
    unfold lit. simpl. rewrite !not_elem_of_cons.
    repeat split; try discriminate. apply not_elem_of_nil. }
  destruct (sub_topic_len (drop 4 buffer)) as [Hk Ht].
  fold topic in Hk, Ht.
  unfold publish_or_reject. rewrite Hpub, Hidx.
  destruct (strchr (drop 4 buffer) LF) as [k |] eqn:E; simpl.
  - simpl in Hk, Ht. subst k.
    replace (Z.of_nat (S (S (S (S (length topic))))) - 4)%Z
      with (Z.of_nat (length topic)) by lia.
    rewrite !bool_decide_eq_true_2 by lia. simpl.
    rewrite Nat2Z.id, Ht. reflexivity.
  - exfalso. apply strchr_none in E.
    by apply E, newline_after_command.
Qed.

(** ** Fan-out *)

Lemma forward_loop_events (env : os_env) (n j : nat) (table : list pollfd)
    (cls : list client_t) (pub_topic msg : bytes) (w : world) :
  forward_loop env n j table cls pub_topic msg w =
    World (files w)
      (trace w
         ++ flat_map (forward_events env cls pub_topic msg)
              (List.filter (subscribed_to table cls pub_topic) (seq j n))).
Proof.
  revert j w. induction n as [| n IH]; intros j w; simpl.
  - rewrite app_nil_r. by destruct w.
  - rewrite IH. unfold forward_to_slot. cbv zeta.
    fold (subscribed_to table cls pub_topic j).
    destruct (subscribed_to table cls pub_topic j); [| done].
    cbn [flat_map]. unfold forward_events at 2, sys_write. cbv zeta.
    destruct (bool_decide (BUFFER_SIZE ≤ length (frame pub_topic msg))).
    + cbn [files trace emit app]. by rewrite <- app_assoc.
    + destruct (write_ok env _ _); cbn [files trace emit app];
        by rewrite <- !app_assoc.
Qed.

Lemma all_writes_app (l k : list event) :
  all_writes (l ++ k) = all_writes l ++ all_writes k.
Proof. apply omap_app. Qed.

(** When the frame fits, every slot that passes the test is sent exactly
    the frame, in slot order, and nothing else is written. *)
Lemma fan_out_delivers (env : os_env) (pub_topic msg : bytes) (st : server) :
  length (frame pub_topic msg) < BUFFER_SIZE →
  all_writes
    (events_since (os st) (os (forward_to_subscribers env pub_topic msg st)))
  = map (λ j, (c_fd (client_at j st), frame pub_topic msg))
      (List.filter (subscribed_to (fds st) (clients st) pub_topic)
         (seq 1 MAX_CLIENTS)).
Proof.
  intros Hfit. unfold forward_to_subscribers, events_since, with_os.
  cbn [os]. rewrite forward_loop_events. cbn [trace].
  rewrite drop_app_length.
  induction (List.filter _ _) as [| j js IH]; [done |].
  cbn [flat_map map]. rewrite all_writes_app, IH. unfold forward_events.
  rewrite bool_decide_eq_false_2 by lia.
  unfold client_at. by destruct (write_ok env _ _).
Qed.

(** A slot whose descriptor has been set to -1 is passed over. *)
Lemma freed_slot_skipped (env : os_env) (table : list pollfd)
    (cls : list client_t) (pub_topic msg : bytes) (j : nat) (w : world)
    (p : pollfd) :
  table !! j = Some p → pfd_fd p = (-1)%Z →
  forward_to_slot env table cls pub_topic msg j w = w.
Proof.
  intros Hp Hfd. unfold forward_to_slot. rewrite Hp. cbn [default].
  by rewrite bool_decide_eq_false_2 by (intros H; by apply H).
Qed.

Lemma take_until_lt (s : bytes) (c : ascii) :
  c ∈ s → length (take_until c s) < length s.
Proof.
  induction s as [| x s IH]; simpl.
  - intros H. by apply elem_of_nil in H.
  - destruct (decide (x = c)); simpl; [lia |].
    rewrite elem_of_cons. intros [? | H]; [congruence |].
    apply IH in H. lia.
Qed.

Lemma length_frame (pub_topic msg : bytes) :
  length (frame pub_topic msg)
  = 5 + length (cstr pub_topic) + length (cstr msg).
Proof.
  unfold frame. rewrite !length_app. cbn [length lit list_ascii_of_string].
  lia.
Qed.

(** The frame is as long as the command it was cut from, so a command that
    came through the 1023-byte read always fits the 1024-byte frame
    buffer: the test of line 272 cannot fire on what [read] delivers. *)
Lemma frame_fits_read_buffer (d : bytes) :
  let buffer := cstr (take (BUFFER_SIZE - 1) d) in
  starts_with (lit "PUB ") buffer = true →
  LF ∈ buffer →
  let topic := take_until LF (drop 4 buffer) in
  let msg := drop (5 + length topic) buffer in
  length (frame topic msg) < BUFFER_SIZE.
Proof.
  intros buffer Hpub Hnl topic msg.
  assert (Hb : length buffer ≤ BUFFER_SIZE - 1).
  { unfold buffer, cstr. etrans; [apply take_until_length |].
    rewrite length_take. lia. }
  pose proof (take_until_lt _ _ (newline_after_command _ Hpub Hnl)) as Hlt.
  fold topic in Hlt. rewrite length_drop in Hlt.
  rewrite length_frame.
  pose proof (take_until_length topic NUL) as H1.
  pose proof (take_until_length msg NUL) as H2.
  unfold cstr. unfold msg in H2 at 2. rewrite length_drop in H2.
  unfold BUFFER_SIZE in *. lia.
Qed.

(** Under [PERSIST_NONE] no call of the handler changes a file, whatever
    the client sends. *)
Lemma none_mode_handler_keeps_files (env : os_env) (i : nat)
    (incoming : option bytes) (p_duration now : Z) (st : server) :
  files (os (handle_client_data env i incoming PERSIST_NONE p_duration now st))
  = files (os st).
Proof.
  assert (Hclose : ∀ st0,
            files (os (disconnect_publisher i st0)) = files (os st0))
    by done.
  assert (Hpub : ∀ buffer st0,
            files (os (publish_or_reject env i buffer PERSIST_NONE now st0))
            = files (os st0)).
  { intros buffer st0. unfold publish_or_reject. cbv zeta.
    destruct (starts_with (lit "PUB ") buffer).
    - rewrite Hclose.
      destruct (strchr buffer LF); [| done].
      destruct (_ && _); [| done].
      unfold forward_to_subscribers, with_os. cbn [os fds clients].
      by rewrite forward_loop_events.
    - by destruct (decide _). }
  unfold handle_client_data. destruct (sys_read incoming) as [valread data].
  destruct (valread <=? 0)%Z; [done |].
  unfold identify_client. cbv zeta.
  destruct (decide _); [| apply Hpub].
  destruct (starts_with (lit "SUB ") (cstr data)).
  - destruct (_ && _); by rewrite Hpub.
  - destruct (starts_with (lit "PUB ") (cstr data)); [apply Hpub | done].
Qed.

(** ** Worked scenarios *)

Lemma subscribe_then_dropped_witness :
  let st' :=
    handle_client_data reliable_os 1 (Some (lit "SUB weather")) PERSIST_ALL
      0 100 two_clients in
  fds st' !! 1 = Some (Pollfd (-1) POLLIN)
  ∧ clients st' !! 1 = Some free_client
  ∧ last (trace (os st')) = Some (EvClose 5).
Proof.
  cbv zeta.
  rewrite (subscribe_then_dropped reliable_os 1 (lit "SUB weather")
             PERSIST_ALL 0 100 two_clients (Pollfd 5 POLLIN)
             (Client 5 CLIENT_TYPE_UNKNOWN []));
    [| reflexivity | reflexivity | reflexivity | reflexivity
     | vm_compute; lia].
  vm_compute. done.
Defined.

(** C2: in that scenario the subscriber, on descriptor 5, should be sent
    [MSG weather\nsunny].  It is sent nothing: its [SUB] got it closed, so
    that by the time of the publish no slot is a subscriber, and the broker
    never calls [write] at all. *)
Theorem subscriber_misses_publish :
  frame (lit "weather") (lit "sunny") = lit "MSG weather" ++ LF :: lit "sunny"
  ∧ writes_of 5 (trace (os weather_scenario)) = []
  ∧ all_writes (trace (os weather_scenario)) = []
  ∧ trace (os weather_scenario) =
      [EvNonBlock 5; EvReport (RNewConnection 5);
       EvNonBlock 6; EvReport (RNewConnection 6);
       EvReport (RSubscribed 5 (lit "weather"));
       EvReport (RUnexpectedData 5 (lit "SUB weather"));
       EvClose 5;
       EvReport (RReceived (lit "weather") 6);
       EvClose 6].
Proof. vm_compute. done. Qed.

(** ** No subscriber ever stays *)

Lemma alter_absent {A} (f : A → A) (i : nat) (l : list A) :
  l !! i = None → alter f i l = l.
Proof.
  intros H. rewrite <- (list_alter_id id l i) at 2 by done.
  apply list_alter_ext; [| done]. intros x Hx. congruence.
Qed.

Lemma drop_client_no_subscriber (i : nat) (st : server) :
  no_subscriber st → no_subscriber (drop_client i st).
Proof.
  unfold no_subscriber, drop_client, set_client_topic, set_client_type,
    set_client_fd, set_pfd_fd, with_os. cbn [clients]. intros H.
  rewrite !list_alter_alter_eq. by apply Forall_alter.
Qed.

Lemma disconnect_publisher_no_subscriber (i : nat) (st : server) :
  no_subscriber st → no_subscriber (disconnect_publisher i st).
Proof.
  unfold no_subscriber, disconnect_publisher, set_client_fd, set_pfd_fd,
    with_os. cbn [clients]. intros H. by apply Forall_alter.
Qed.

(** Whatever a client sends, the handler leaves no slot marked as a
    subscriber: the one place that sets the mark (line 224) is followed, in
    the same call, by the branch that clears it (line 298). *)
Lemma handler_no_subscriber (env : os_env) (i : nat)
    (incoming : option bytes) (p_mode : persistence_mode_t)
    (p_duration now : Z) (st : server) :
  no_subscriber st →
  no_subscriber (handle_client_data env i incoming p_mode p_duration now st).
Proof.
  intros Hinv.
  assert (Hpub : ∀ buffer st0, no_subscriber st0 →
            no_subscriber (publish_or_reject env i buffer p_mode now st0)).
  { intros buffer st0 H0. unfold publish_or_reject. cbv zeta.
    destruct (starts_with (lit "PUB ") buffer).
    - apply disconnect_publisher_no_subscriber.
      destruct (strchr buffer LF); [| done]. by destruct (_ && _).
    - destruct (decide _); [| done]. by apply drop_client_no_subscriber. }
  unfold handle_client_data. destruct (sys_read incoming) as [valread data].
  destruct (valread <=? 0)%Z; [by apply drop_client_no_subscriber |].
  unfold identify_client. cbv zeta.
  destruct (decide _) as [Hty | _]; [| by apply Hpub].
  destruct (starts_with (lit "SUB ") (cstr data)) eqn:Hsub.
  - destruct (_ && _).
    + unfold publish_or_reject. cbv zeta.
      rewrite (command_words_differ _ Hsub).
      destruct (clients st !! i) as [c |] eqn:Hc.
      * destruct (decide _) as [_ | Hne].
        -- unfold no_subscriber, drop_client, set_client_topic,
             set_client_type, set_client_fd, set_pfd_fd, with_os.
           cbn [clients]. rewrite !list_alter_alter_eq.
           by apply Forall_alter.
        -- exfalso. apply Hne. unfold client_at, set_client_topic,
             set_client_type, with_os. cbn [clients].
           by rewrite !list_lookup_alter_eq, Hc.
      * destruct (decide _) as [Heq | _].
        -- exfalso. revert Heq. unfold client_at, set_client_topic,
             set_client_type, with_os. cbn [clients].
           by rewrite !list_lookup_alter_eq, Hc.
        -- unfold no_subscriber, set_client_topic, set_client_type, with_os.
           cbn [clients].
           by rewrite !(alter_absent _ i (clients st)) by done.
    + apply Hpub. by apply drop_client_no_subscriber.
  - destruct (starts_with (lit "PUB ") (cstr data)); [by apply Hpub |].
    by apply drop_client_no_subscriber.
Qed.

Lemma accept_no_subscriber (new_socket : Z) (st : server) :
  no_subscriber st → no_subscriber (handle_new_connection new_socket st).
Proof.
  intros H. unfold handle_new_connection.
  destruct (new_socket <? 0)%Z; [done |]. cbv zeta.
  destruct (first_free_slot _ _ _); [| done].
  unfold no_subscriber, set_client_fd, set_pfd_events, set_pfd_fd, with_os.
  cbn [clients]. by apply Forall_alter.
Qed.

Lemma serve_clients_no_subscriber (env : os_env) (n i : nat)
    (revents : nat → option (option bytes)) (p_mode : persistence_mode_t)
    (p_duration now : Z) (st : server) :
  no_subscriber st →
  no_subscriber (serve_clients env n i revents p_mode p_duration now st).
Proof.
  revert i st. induction n as [| n IH]; intros i st H; [done |].
  cbn [serve_clients]. apply IH.
  destruct (revents i); [| done]. destruct (decide _); [| done].
  by apply handler_no_subscriber.
Qed.

(** However many clients subscribe, the broker never holds a subscriber
    between two rounds of its loop, so that the forwarding loop of a
    publish never finds one to write to. *)
Lemma never_a_subscriber (env : os_env) (p_mode : persistence_mode_t)
    (p_duration : Z) (st : server) :
  reachable env p_mode p_duration st →
  no_subscriber st
  ∧ ∀ pub_topic msg j w,
      forward_to_slot env (fds st) (clients st) pub_topic msg j w = w.
Proof.
  intros Hreach.
  assert (Hinv : no_subscriber st).
  { induction Hreach as [server_fd w | pr now st _ IH].
    - unfold no_subscriber, initial_server. cbn [clients].
      constructor; [done |]. by apply Forall_replicate.
    - unfold serve_round. apply serve_clients_no_subscriber.
      destruct (accepted pr); [by apply accept_no_subscriber | done]. }
  split; [done |]. intros pub_topic msg j w. unfold forward_to_slot.
  cbv zeta.
  assert (c_type (default free_client (clients st !! j))
          = CLIENT_TYPE_UNKNOWN) as ->.
  { destruct (clients st !! j) as [c |] eqn:Hc; [| done].
    by eapply Forall_lookup_1 in Hinv. }
  rewrite (bool_decide_eq_false_2
             (CLIENT_TYPE_UNKNOWN = CLIENT_TYPE_SUBSCRIBER)) by done.
  by rewrite andb_false_r.
Qed.

(** ** Printing and reading back a timestamp *)

Lemma digit_char_ok (d : Z) :
  (0 ≤ d ≤ 9)%Z →
  isdigit (digit_char d) = true ∧ digit_value (digit_char d) = d.
Proof.
  intros Hd.
  assert (d = 0 ∨ d = 1 ∨ d = 2 ∨ d = 3 ∨ d = 4 ∨ d = 5 ∨ d = 6 ∨ d = 7
          ∨ d = 8 ∨ d = 9)%Z as Hcases by lia.
  repeat (destruct Hcases as [-> | Hcases]; [by vm_compute |]).
  subst d. by vm_compute.
Qed.

Lemma isdigit_plain (c : ascii) :
  isdigit c = true →
  isspace c = false ∧ c ≠ "-"%char ∧ c ≠ "+"%char ∧ c ≠ SP ∧ c ≠ LF ∧ c ≠ NUL.
Proof.
  unfold isdigit, isspace. intros H.
  apply andb_true_iff in H as [H1 H2].
  apply Nat.leb_le in H1, H2.
  split.
  - apply orb_false_iff. split.
    + apply Nat.eqb_neq. lia.
    + apply andb_false_iff. right. apply Nat.leb_gt. lia.
  - repeat split; intros ->; vm_compute in H1; lia.
Qed.

Lemma digits_value_snoc (ds : bytes) (c : ascii) :
  digits_value (ds ++ [c]) = (10 * digits_value ds + digit_value c)%Z.
Proof. unfold digits_value. by rewrite fold_left_app. Qed.

(** With enough rounds, [digits_of] puts in front of [acc] a non-empty
    run of digits whose value is [n]. *)
Lemma digits_of_spec (fuel : nat) (n : Z) (acc : bytes) :
  (0 ≤ n < 10 ^ Z.of_nat (S fuel))%Z →
  ∃ ds, digits_of (S fuel) n acc = ds ++ acc
        ∧ ds ≠ []
        ∧ Forall (λ c, isdigit c = true) ds
        ∧ digits_value ds = n
        ∧ length ds ≤ S fuel.
Proof.
  revert n acc. induction fuel as [| fuel IH]; intros n acc Hn.
  - change (10 ^ Z.of_nat 1)%Z with 10%Z in Hn.
    simpl. destruct (Z.ltb_spec n 10) as [E | E]; [| lia].
    exists [digit_char (n mod 10)].
    destruct (digit_char_ok (n mod 10)) as [H1 H2].
    { pose proof (Z.mod_pos_bound n 10). lia. }
    repeat split; try done.
    + by constructor.
    + unfold digits_value. simpl. rewrite H2. rewrite Z.mod_small; lia.
  - assert (Hd : (0 ≤ n mod 10 ≤ 9)%Z).
    { pose proof (Z.mod_pos_bound n 10). lia. }
    destruct (digit_char_ok (n mod 10) Hd) as [H1 H2].
    change (digits_of (S (S fuel)) n acc)
      with (if (n <? 10)%Z then digit_char (n mod 10) :: acc
            else digits_of (S fuel) (n / 10) (digit_char (n mod 10) :: acc)).
    destruct (n <? 10)%Z eqn:E.
    + exists [digit_char (n mod 10)].
      repeat split; try done.
      * by constructor.
      * unfold digits_value. simpl. rewrite H2.
        apply Z.ltb_lt in E. rewrite Z.mod_small; lia.
      * simpl. lia.
    + apply Z.ltb_ge in E.
      destruct (IH (n / 10)%Z (digit_char (n mod 10) :: acc))
        as (ds & Heq & Hne & Hall & Hval & Hlen).
      { split; [apply Z.div_pos; lia |].
        apply Z.div_lt_upper_bound; [lia |].
        replace (Z.of_nat (S (S fuel))) with (Z.succ (Z.of_nat (S fuel)))
          in Hn by lia.
        rewrite Z.pow_succ_r in Hn by lia. lia. }
      exists (ds ++ [digit_char (n mod 10)]).
      split; [by rewrite Heq, <- app_assoc |].
      split; [by destruct ds |].
      split; [apply Forall_app; split; [done | by constructor] |].
      split.
      * rewrite digits_value_snoc, Hval, H2.
        pose proof (Z.div_mod n 10). lia.
      * rewrite length_app. simpl. lia.
Qed.

Lemma span_digits_app (ds r : bytes) :
  Forall (λ c, isdigit c = true) ds →
  match r with c :: _ => isdigit c = false | [] => True end →
  span_digits (ds ++ r) = (ds, r).
Proof.
  intros Hds Hr. induction Hds as [| c ds Hc Hds IH]; cbn [app span_digits].
  - destruct r as [| c r]; [done |]. cbn [span_digits]. by rewrite Hr.
  - by rewrite Hc, IH.
Qed.

Lemma clamp_long_in_range (z : Z) : in_long (clamp_long z).
Proof.
  unfold clamp_long, in_long, LONG_MIN, LONG_MAX.
  destruct (z <? _)%Z eqn:E1; [lia |].
  destruct (_ <? z)%Z eqn:E2; lia.
Qed.

Lemma clamp_long_id (z : Z) : in_long z → clamp_long z = z.
Proof.
  unfold clamp_long, in_long, LONG_MIN, LONG_MAX. intros Hz.
  destruct (z <? _)%Z eqn:E1; [lia |].
  destruct (_ <? z)%Z eqn:E2; lia.
Qed.

Lemma strtol_in_range (s : bytes) : in_long (fst (strtol s)).
Proof.
  unfold strtol. destruct (strip_sign _) as [neg s2].
  destruct (span_digits s2) as [[| c ds] r]; cbn [fst].
  - unfold in_long, LONG_MIN, LONG_MAX. lia.
  - apply clamp_long_in_range.
Qed.

(** What [%ld] prints is read back by [strtol] as the same number, up to
    the character after it. *)
Lemma strtol_fmt_ld (z : Z) (rest : bytes) :
  in_long z →
  strtol (fmt_ld z ++ SP :: rest) = (z, SP :: rest).
Proof.
  intros Hz. unfold in_long, LONG_MIN, LONG_MAX in Hz. unfold fmt_ld.
  destruct (z <? 0)%Z eqn:E.
  - apply Z.ltb_lt in E.
    destruct (digits_of_spec 19 (- z) []) as (ds & Heq & Hne & Hall & Hval & _).
    { change (10 ^ Z.of_nat 20)%Z with 100000000000000000000%Z. lia. }
    rewrite Heq, app_nil_r. unfold strtol. simpl.
    rewrite span_digits_app by done.
    destruct ds as [| c ds]; [done |].
    rewrite Hval, clamp_long_id; [f_equal; lia |].
    unfold in_long, LONG_MIN, LONG_MAX. lia.
  - apply Z.ltb_ge in E.
    destruct (digits_of_spec 19 z []) as (ds & Heq & Hne & Hall & Hval & _).
    { change (10 ^ Z.of_nat 20)%Z with 100000000000000000000%Z. lia. }
    rewrite Heq, app_nil_r. unfold strtol.
    destruct ds as [| c ds]; [done |].
    apply Forall_cons in Hall as [Hc Hall].
    destruct (isdigit_plain c Hc) as (Hsp & Hminus & Hplus & _).
    simpl. rewrite Hsp. simpl.
    destruct (decide (c = "-"%char)); [done |].
    destruct (decide (c = "+"%char)); [done |].
    change (c :: ds ++ SP :: rest) with ((c :: ds) ++ SP :: rest).
    rewrite span_digits_app; [| by constructor | done].
    rewrite Hval, clamp_long_id; [done |].
    unfold in_long, LONG_MIN, LONG_MAX. lia.
Qed.

Lemma length_fmt_ld (z : Z) : in_long z → length (fmt_ld z) ≤ 21.
Proof.
  intros Hz. unfold in_long, LONG_MIN, LONG_MAX in Hz. unfold fmt_ld.
  destruct (z <? 0)%Z eqn:E.
  - apply Z.ltb_lt in E.
    destruct (digits_of_spec 19 (- z) []) as (ds & Heq & _ & _ & _ & Hlen).
    { change (10 ^ Z.of_nat 20)%Z with 100000000000000000000%Z. lia. }
    rewrite Heq, app_nil_r. simpl. lia.
  - apply Z.ltb_ge in E.
    destruct (digits_of_spec 19 z []) as (ds & Heq & _ & _ & _ & Hlen).
    { change (10 ^ Z.of_nat 20)%Z with 100000000000000000000%Z. lia. }
    rewrite Heq, app_nil_r. lia.
Qed.

(** The characters [%ld] prints: no newline, no NUL, at least one. *)
Lemma fmt_ld_chars (z : Z) :
  in_long z → fmt_ld z ≠ [] ∧ (LF ∉ fmt_ld z) ∧ (NUL ∉ fmt_ld z).
Proof.
  intros Hz. unfold in_long, LONG_MIN, LONG_MAX in Hz. unfold fmt_ld.
  assert (Hdig : ∀ ds, Forall (λ c, isdigit c = true) ds →
                       (LF ∉ ds) ∧ (NUL ∉ ds)).
  { intros ds Hall. induction Hall as [| c ds Hc _ [IH1 IH2]].
    - split; apply not_elem_of_nil.
    - destruct (isdigit_plain c Hc) as (_ & _ & _ & _ & H1 & H2).
      rewrite !not_elem_of_cons. split; split; done. }
  destruct (z <? 0)%Z eqn:E.
  - apply Z.ltb_lt in E.
    destruct (digits_of_spec 19 (- z) []) as (ds & Heq & _ & Hall & _).
    { change (10 ^ Z.of_nat 20)%Z with 100000000000000000000%Z. lia. }
    rewrite Heq, app_nil_r. destruct (Hdig ds Hall) as [H1 H2].
    split; [done |]. rewrite !not_elem_of_cons. split; split; done.
  - apply Z.ltb_ge in E.
    destruct (digits_of_spec 19 z []) as (ds & Heq & Hne & Hall & _).
    { change (10 ^ Z.of_nat 20)%Z with 100000000000000000000%Z. lia. }
    rewrite Heq, app_nil_r. destruct (Hdig ds Hall) as [H1 H2]. done.
Qed.

(** A line written by [fprintf(fp, "%ld %s", t, msg)] is parsed back into
    [t] and [msg]. *)
Lemma parse_entry_line (t : Z) (msg : bytes) :
  in_long t →
  parse_entry (entry_line t msg) = (t, cstr msg).
Proof.
  intros Ht. unfold parse_entry, entry_line.
  rewrite strtol_fmt_ld by done.
  by destruct (decide (SP = SP)).
Qed.

(** ** Lines of a log file *)

Lemma fgets_shape (room : nat) (s l r : bytes) :
  fgets room s = (l, r) →
  s = l ++ r
  ∧ length l ≤ room
  ∧ (terminated l ∨ ((LF ∉ l) ∧ (length l = room ∨ r = []))).
Proof.
  revert room l r. induction s as [| c s IH]; intros room l r.
  - destruct room; simpl; intros [= <- <-]; (split; [done |]);
      (split; [simpl; lia |]); right;
      (split; [apply not_elem_of_nil | by right]).
  - destruct room as [| room]; simpl.
    + intros [= <- <-]. split; [done |]. split; [done |].
      right. split; [apply not_elem_of_nil | by left].
    + destruct (decide (c = LF)) as [-> | Hc].
      * intros [= <- <-]. split; [done |]. split; [simpl; lia |].
        left. exists []. split; [done | apply not_elem_of_nil].
      * destruct (fgets room s) as [l' r'] eqn:E. intros [= <- <-].
        destruct (IH _ _ _ E) as (-> & Hlen & Hshape).
        split; [done |]. split; [simpl; lia |].
        destruct Hshape as [(body & -> & Hbody) | (Hfree & Hend)].
        -- left. exists (c :: body). split; [done |].
           rewrite not_elem_of_cons. split; [congruence | done].
        -- right. split.
           ++ rewrite not_elem_of_cons. split; [congruence | done].
           ++ simpl. destruct Hend; [left; lia | by right].
Qed.

(** A successful [fgets] takes at least one character off the stream. *)
Lemma fgets_progress (room : nat) (c : ascii) (s l r : bytes) :
  fgets (S room) (c :: s) = (l, r) → l ≠ [] ∧ length r ≤ length s.
Proof.
  simpl. destruct (decide (c = LF)).
  - intros [= <- <-]. done.
  - destruct (fgets room s) as [l' r'] eqn:E. intros [= <- <-].
    apply fgets_shape in E as (-> & _). rewrite length_app.
    split; [done | lia].
Qed.

Lemma fgets_closed (room : nat) (l rest : bytes) :
  closed room l → fgets room (l ++ rest) = (l, rest).
Proof.
  intros [[(body & -> & Hbody) Hlen] | [Hfree Hlen]].
  - revert room Hlen. induction body as [| c body IH]; intros room Hlen.
    + destruct room as [| room]; [simpl in Hlen; lia |]. simpl.
      by destruct (decide (LF = LF)).
    + apply not_elem_of_cons in Hbody as [Hc Hbody].
      destruct room as [| room]; [simpl in Hlen; lia |]. simpl.
      destruct (decide (c = LF)); [congruence |].
      simpl in Hlen. rewrite (IH Hbody room) by lia. done.
  - revert room Hlen. induction l as [| c l IH]; intros room Hlen.
    + simpl in Hlen. subst room. by destruct rest.
    + apply not_elem_of_cons in Hfree as [Hc Hfree].
      destruct room as [| room]; [simpl in Hlen; lia |]. simpl.
      destruct (decide (c = LF)); [congruence |].
      simpl in Hlen. rewrite (IH Hfree room) by lia. done.
Qed.

Lemma fgets_unterminated (room : nat) (l : bytes) :
  LF ∉ l → length l ≤ room → fgets room l = (l, []).
Proof.
  revert room. induction l as [| c l IH]; intros room Hfree Hlen.
  - by destruct room.
  - apply not_elem_of_cons in Hfree as [Hc Hfree].
    destruct room as [| room]; [simpl in Hlen; lia |]. simpl.
    destruct (decide (c = LF)); [congruence |].
    simpl in Hlen. rewrite (IH room) by (done || lia). done.
Qed.

(** More rounds than the file has characters change nothing: the loop
    has ended by then. *)
Lemma fgets_loop_fuel (f1 f2 : nat) (s : bytes) :
  length s ≤ f1 → length s ≤ f2 → fgets_loop f1 s = fgets_loop f2 s.
Proof.
  revert f2 s. induction f1 as [| f1 IH]; intros f2 s H1 H2.
  - destruct s; [| simpl in H1; lia]. by destruct f2.
  - destruct s as [| c s]; [by destruct f2 |].
    destruct f2 as [| f2]; [simpl in H2; lia |].
    cbn [fgets_loop].
    destruct (fgets (BUFFER_SIZE - 1) (c :: s)) as [l r] eqn:E.
    f_equal. apply fgets_progress in E as [_ Hr].
    simpl in H1, H2. apply IH; lia.
Qed.

(** The loop equation of [while (fgets(...))]. *)
Lemma file_lines_cons (c : ascii) (s : bytes) :
  file_lines (c :: s)
  = (fgets (BUFFER_SIZE - 1) (c :: s)).1
      :: file_lines (fgets (BUFFER_SIZE - 1) (c :: s)).2.
Proof.
  unfold file_lines. cbn [length fgets_loop].
  destruct (fgets (BUFFER_SIZE - 1) (c :: s)) as [l r] eqn:E.
  cbn [fst snd]. f_equal.
  apply fgets_loop_fuel; [| done].
  by apply fgets_progress in E as [_ Hr].
Qed.

Lemma file_lines_closed (l rest : bytes) :
  l ≠ [] → closed (BUFFER_SIZE - 1) l →
  file_lines (l ++ rest) = l :: file_lines rest.
Proof.
  intros Hne Hcl. destruct l as [| c l]; [done |].
  change ((c :: l) ++ rest) with (c :: (l ++ rest)).
  rewrite file_lines_cons.
  change (c :: (l ++ rest)) with ((c :: l) ++ rest).
  by rewrite fgets_closed.
Qed.

Lemma file_lines_unterminated (l : bytes) :
  l ≠ [] → LF ∉ l → length l ≤ BUFFER_SIZE - 1 → file_lines l = [l].
Proof.
  intros Hne Hfree Hlen. destruct l as [| c l]; [done |].
  rewrite file_lines_cons, fgets_unterminated by done. done.
Qed.

Lemma file_lines_concat (ls : list bytes) :
  chunked ls → file_lines (concat ls) = ls.
Proof.
  induction 1 as [| l Hne Hfree Hlen | l ls Hne Hcl _ IH]; simpl.
  - done.
  - rewrite app_nil_r. by apply file_lines_unterminated.
  - rewrite file_lines_closed by done. by rewrite IH.
Qed.

Lemma file_lines_chunked (content : bytes) :
  chunked (file_lines content) ∧ concat (file_lines content) = content.
Proof.
  remember (length content) as n eqn:Hn. revert content Hn.
  induction n as [n IH] using lt_wf_ind. intros content Hn.
  destruct content as [| c s]; [split; [constructor | done] |].
  rewrite file_lines_cons.
  destruct (fgets (BUFFER_SIZE - 1) (c :: s)) as [l r] eqn:E.
  cbn [fst snd].
  pose proof (fgets_shape _ _ _ _ E) as (Hs & Hlen & Hshape).
  pose proof (fgets_progress _ _ _ _ _ E) as [Hne _].
  destruct (IH (length r)) with (content := r) as [Hch Hcat]; [| done |].
  { rewrite Hn, Hs, length_app. destruct l; [done | simpl; lia]. }
  split; [| simpl; by rewrite Hcat].
  destruct Hshape as [Hterm | (Hfree & [Hfull | ->])].
  - apply chunked_cons; [done | by left | done].
  - apply chunked_cons; [done | by right | done].
  - by apply chunked_last.
Qed.

Lemma chunked_all_closed (ls : list bytes) :
  chunked ls →
  concat ls = [] ∨ last (concat ls) = Some LF →
  Forall (λ l, l ≠ [] ∧ closed (BUFFER_SIZE - 1) l) ls.
Proof.
  induction 1 as [| l Hne Hfree Hlen | l ls Hne Hcl _ IH]; intros Hend.
  - constructor.
  - exfalso. simpl in Hend. rewrite app_nil_r in Hend.
    destruct Hend as [-> | Hlast]; [done |].
    apply Hfree. apply last_Some in Hlast as [l' ->].
    apply elem_of_app. right. left.
  - constructor; [by split |]. apply IH.
    destruct (concat ls) as [| c k] eqn:E; [by left |]. right.
    simpl in Hend. rewrite E in Hend.
    destruct Hend as [Hnil | Hlast]; [by destruct l |].
    rewrite last_app in Hlast.
    destruct (last (c :: k)) eqn:E2; [done |].
    by apply last_None in E2.
Qed.

Lemma file_lines_app_closed (ls : list bytes) (rest : bytes) :
  Forall (λ l, l ≠ [] ∧ closed (BUFFER_SIZE - 1) l) ls →
  file_lines (concat ls ++ rest) = ls ++ file_lines rest.
Proof.
  induction 1 as [| l ls [Hne Hcl] _ IH]; [done |].
  simpl. rewrite <- app_assoc, file_lines_closed by done. by rewrite IH.
Qed.

(** Appending to a file that is empty or ends with a newline adds lines
    and leaves the earlier ones as they were. *)
Lemma file_lines_app (old added : bytes) :
  old = [] ∨ last old = Some LF →
  file_lines (old ++ added) = file_lines old ++ file_lines added.
Proof.
  intros Hend. destruct (file_lines_chunked old) as [Hch Hcat].
  rewrite <- Hcat at 1. apply file_lines_app_closed.
  apply chunked_all_closed; [done |]. by rewrite Hcat.
Qed.

(** ** Appending to the log *)

Lemma persist_all_log (env : os_env) (topic message : bytes) (now : Z)
    (w : world) :
  fopen_w_ok env (log_path topic) = true →
  log_of topic (persist_message env topic message PERSIST_ALL now w)
  = log_of topic w ++ cstr message.
Proof.
  intros Hok. unfold persist_message, log_of. rewrite Hok.
  unfold file_append, set_files, emit. cbn [files].
  by rewrite lookup_insert_eq.
Qed.

Lemma publish_sequence_log (env : os_env) (topic : bytes)
    (pubs : list (Z * bytes)) (w : world) :
  fopen_w_ok env (log_path topic) = true →
  log_of topic (publish_sequence env topic PERSIST_ALL pubs w)
  = log_of topic w ++ concat (map (λ p, cstr p.2) pubs).
Proof.
  intros Hok. revert w. induction pubs as [| [now m] pubs IH]; intros w.
  - simpl. by rewrite app_nil_r.
  - change (publish_sequence env topic PERSIST_ALL ((now, m) :: pubs) w)
      with (publish_sequence env topic PERSIST_ALL pubs
              (persist_message env topic m PERSIST_ALL now w)).
    rewrite IH, persist_all_log by done. simpl.
    by rewrite <- app_assoc.
Qed.

(** Two publishes as the publisher client sends them, without a newline
    after the message, end up on one line of the log. *)
Lemma unterminated_messages_share_a_line :
  ¬ publishes_are_lines reliable_os (lit "weather")
      [(100%Z, lit "72F"); (101%Z, lit "sunny")] empty_world.
Proof.
  unfold publishes_are_lines.
  assert (file_lines
            (log_of (lit "weather")
               (publish_sequence reliable_os (lit "weather") PERSIST_ALL
                  [(100%Z, lit "72F"); (101%Z, lit "sunny")] empty_world))
          = [lit "72Fsunny"]) as -> by (by vm_compute).
  discriminate.
Qed.

(** C5, amended: under [PERSIST_ALL], when the log of the topic can be
    opened, N publishes append the N messages to it byte for byte, in
    publish order and with nothing between them.  When each message is one
    line, and the log was empty or ended with a newline, these are N
    further lines of the log, equal to the messages. *)
Theorem publishes_append_in_order (env : os_env) (topic : bytes)
    (pubs : list (Z * bytes)) (w : world) :
  fopen_w_ok env (log_path topic) = true →
  let w' := publish_sequence env topic PERSIST_ALL pubs w in
  log_of topic w' = log_of topic w ++ concat (map (λ p, cstr p.2) pubs)
  ∧ (Forall one_line (map snd pubs) →
     log_of topic w = [] ∨ last (log_of topic w) = Some LF →
     log_of topic w' = log_of topic w ++ concat (map snd pubs)
     ∧ file_lines (log_of topic w')
       = file_lines (log_of topic w) ++ map snd pubs).
Proof.
  intros Hok w'. split; [by apply publish_sequence_log |].
  intros Hlines Hend. unfold w'. rewrite publish_sequence_log by done.
  assert (Hsame : map (λ p : Z * bytes, cstr p.2) pubs = map snd pubs).
  { clear -Hlines. induction pubs as [| [now m] pubs IH]; [done |].
    apply Forall_cons in Hlines as [(Hnul & _) Hlines].
    simpl. rewrite cstr_id by done. f_equal. by apply IH. }
  rewrite Hsame. split; [done |].
  rewrite file_lines_app by done. f_equal.
  rewrite <- (app_nil_r (concat _)), file_lines_app_closed; [by rewrite app_nil_r |].
  eapply Forall_impl; [exact Hlines |].
  intros m (_ & Hterm & Hlen). split.
  - destruct Hterm as (body & -> & _). by destruct body.
  - by left.
Qed.

Lemma publishes_append_in_order_witness :
  let pubs := [(100%Z, lit "72F" ++ [LF]); (101%Z, lit "sunny" ++ [LF])] in
  let w' :=
    publish_sequence reliable_os (lit "weather") PERSIST_ALL pubs empty_world in
  fopen_w_ok reliable_os (log_path (lit "weather")) = true
  ∧ file_lines (log_of (lit "weather") w')
    = [lit "72F" ++ [LF]; lit "sunny" ++ [LF]].
Proof.
  split; [reflexivity |].
  destruct (publishes_append_in_order reliable_os (lit "weather")
              [(100%Z, lit "72F" ++ [LF]); (101%Z, lit "sunny" ++ [LF])]
              empty_world eq_refl) as [_ H].
  destruct H as [_ H].
  - apply Forall_cons. split; [| apply Forall_cons; split; [| constructor]].
    + split; [decide_now |]. split; [| vm_compute; lia].
      exists (lit "72F"). split; [done | decide_now].
    + split; [decide_now |]. split; [| vm_compute; lia].
      exists (lit "sunny"). split; [done | decide_now].
  - by left.
  - exact H.
Defined.

(** ** Timed replay *)

Lemma world_eta (w : world) : World (files w) (trace w) = w.
Proof. by destruct w. Qed.

(** The replay loop over the lines of the log, once the temporary file is
    open and holds [t0]: the entries that pass the test are written to the
    descriptor and appended to the temporary file, in order; the others
    leave no trace. *)
Lemma replay_timed_loop (env : os_env) (fd : Z) (tmp : bytes)
    (p_duration now : Z) (lines : list bytes) (w : world) (t0 : bytes) :
  files w !! tmp = Some t0 →
  let kept := List.filter (fresh now p_duration) (entries_of lines) in
  fold_left (replay_timed_line env fd tmp p_duration now) lines w
  = World (<[tmp := t0 ++ concat (map row kept)]> (files w))
      (trace w ++ flat_map (λ e, write_events env fd e.2) kept).
Proof.
  revert w t0. induction lines as [| line lines IH]; intros w t0 Ht0.
  - simpl. rewrite !app_nil_r, insert_id by done. by rewrite world_eta.
  - set (f := replay_timed_line env fd tmp p_duration now).
    set (e := parse_entry (cstr line)).
    assert (Hstep : f w line
                    = if fresh now p_duration e
                      then file_append tmp (row e)
                             (sys_write env RReplayWriteFailed fd e.2 w)
                      else w).
    { unfold f, replay_timed_line, fresh, row. fold e. by destruct e. }
    change (fold_left f (line :: lines) w) with (fold_left f lines (f w line)).
    change (entries_of (line :: lines)) with (e :: entries_of lines).
    cbn [List.filter]. rewrite Hstep.
    destruct (fresh now p_duration e).
    + unfold f. erewrite IH; last first.
      { unfold file_append, set_files. cbn [files].
        apply lookup_insert_eq. }
      unfold file_append, set_files, sys_write, write_events.
      cbn [map concat flat_map].
      destruct (write_ok env fd e.2); cbn [files trace emit];
        rewrite Ht0; cbn [default from_option id];
        rewrite insert_insert_eq, <- !app_assoc; done.
    + unfold f. by rewrite (IH w t0 Ht0).
Qed.

Lemma all_writes_write_events (env : os_env) (fd : Z)
    (kept : list (Z * bytes)) :
  all_writes (flat_map (λ e, write_events env fd e.2) kept)
  = map (λ e, (fd, e.2)) kept.
Proof.
  induction kept as [| e kept IH]; [done |].
  cbn [flat_map map]. rewrite all_writes_app, IH. unfold write_events.
  by destruct (write_ok env fd e.2).
Qed.

(** The whole of a timed replay that gets to open both files.  The log is
    read after the temporary file has been created, which matters only for
    a topic so long that both truncated paths coincide. *)
Lemma timed_replay_spec (env : os_env) (fd : Z) (topic : bytes)
    (p_duration now : Z) (w : world) (content : bytes) :
  files w !! log_path topic = Some content →
  fopen_w_ok env (temp_path topic) = true →
  let path := log_path topic in
  let tmp := temp_path topic in
  let read := if decide (tmp = path) then [] else content in
  let kept := List.filter (fresh now p_duration) (entries_of (file_lines read)) in
  let rewritten := concat (map row kept) in
  let opened :=
    trace w ++ [EvFopen path OpenRead true; EvFopen tmp OpenWrite true]
      ++ flat_map (λ e, write_events env fd e.2) kept in
  send_persisted_messages env fd topic PERSIST_TIMED p_duration now w
  = if rename_ok env tmp path then
      World (<[path := rewritten]> (delete tmp (files w)))
        (opened ++ [EvRename tmp path true])
    else
      World (<[tmp := rewritten]> (files w))
        (opened ++ [EvRename tmp path false; EvReport RRenameFailed]).
Proof.
  intros Hlog Htmp path tmp read kept rewritten opened.
  unfold send_persisted_messages. cbv zeta. rewrite Hlog, Htmp.
  cbn [emit set_files files trace].
  assert (Hread : default [] (<[temp_path topic := []]> (files w)
                              !! log_path topic) = read).
  { unfold read, tmp, path.
    destruct (decide (temp_path topic = log_path topic)) as [-> | Hne].
    - by rewrite lookup_insert_eq.
    - by rewrite lookup_insert_ne, Hlog. }
  rewrite Hread.
  rewrite (replay_timed_loop env fd (temp_path topic) p_duration now
             (file_lines read) _ [])
    by apply lookup_insert_eq.
  fold kept. unfold emit, set_files. cbn [app files trace]. fold rewritten.
  rewrite insert_insert_eq. fold tmp path.
  destruct (rename_ok env tmp path).
  - cbn [files trace]. rewrite lookup_insert_eq. cbn [default from_option id].
    rewrite delete_insert_eq. unfold opened.
    by rewrite <- !app_assoc.
  - cbn [files trace]. unfold opened. by rewrite <- !app_assoc.
Qed.

Lemma parse_entry_in_range (line : bytes) : in_long (parse_entry line).1.
Proof.
  unfold parse_entry. pose proof (strtol_in_range line) as H.
  by destruct (strtol line).
Qed.

Lemma skip_spaces_split (s : bytes) : ∃ ws, s = ws ++ skip_spaces s.
Proof.
  induction s as [| c s [ws IH]]; [by exists [] |]. simpl.
  destruct (isspace c).
  - exists (c :: ws). simpl. by f_equal.
  - by exists [].
Qed.

Lemma strip_sign_split (s : bytes) : ∃ sg, s = sg ++ (strip_sign s).2.
Proof.
  destruct s as [| c s]; [by exists [] |]. simpl.
  destruct (decide (c = "-"%char)); [by exists [c] |].
  destruct (decide (c = "+"%char)); [by exists [c] |].
  by exists [].
Qed.

Lemma span_digits_split (s ds r : bytes) :
  span_digits s = (ds, r) →
  s = ds ++ r ∧ Forall (λ c, isdigit c = true) ds.
Proof.
  revert ds r. induction s as [| c s IH]; intros ds r; simpl.
  - intros [= <- <-]. done.
  - destruct (isdigit c) eqn:Hc.
    + destruct (span_digits s) as [ds' r'] eqn:E. intros [= <- <-].
      destruct (IH _ _ eq_refl) as [-> Hall]. split; [done |].
      by constructor.
    + intros [= <- <-]. done.
Qed.

(** Where [strtol] leaves [end]: at the start when nothing was converted
    (and then the value is 0), and otherwise just after a digit. *)
Lemma strtol_split (s : bytes) :
  (strtol s = (0%Z, s) ∧ no_conversion s)
  ∨ ∃ pre d, s = pre ++ d :: (strtol s).2 ∧ isdigit d = true.
Proof.
  unfold strtol, no_conversion.
  destruct (skip_spaces_split s) as [ws Hws].
  destruct (strip_sign_split (skip_spaces s)) as [sg Hsg].
  destruct (strip_sign (skip_spaces s)) as [neg s2]. cbn [snd] in *.
  destruct (span_digits s2) as [ds r] eqn:E.
  apply span_digits_split in E as [Hs2 Hall]. cbn [fst].
  destruct ds as [| c ds _] using rev_ind; [by left |].
  right. exists (ws ++ sg ++ ds), c.
  apply Forall_app in Hall as [_ Hc]. apply Forall_cons in Hc as [Hc _].
  split; [| done].
  destruct (ds ++ [c]) as [| x xs] eqn:Hx; [by destruct ds |].
  cbn [snd]. rewrite Hws at 1. rewrite Hsg, Hs2, <- Hx.
  by rewrite <- !app_assoc.
Qed.

(** The message of an entry is the end of its line, and what comes before
    it does not end with a newline. *)
Lemma parse_entry_split (line : bytes) :
  ∃ pre, line = pre ++ (parse_entry line).2
         ∧ (pre = [] ∨ ∃ pre' c, pre = pre' ++ [c] ∧ c ≠ LF).
Proof.
  unfold parse_entry.
  destruct (strtol_split line) as [[-> _] | (pre & d & Hsplit & Hd)].
  - cbn [snd]. destruct line as [| c rest]; [exists []; by split; [| left] |].
    destruct (decide (c = SP)) as [-> | _].
    + exists [SP]. split; [done |]. right. by exists [], SP.
    + exists []. split; [done | by left].
  - destruct (strtol line) as [v r]. cbn [snd] in *.
    destruct (isdigit_plain d Hd) as (_ & _ & _ & _ & Hlf & _).
    destruct r as [| c rest].
    + exists (pre ++ [d]). split; [by rewrite <- app_assoc |].
      right. by exists pre, d.
    + destruct (decide (c = SP)) as [-> | _].
      * exists ((pre ++ [d]) ++ [SP]).
        split; [by rewrite <- !app_assoc |].
        right. by exists (pre ++ [d]), SP.
      * exists (pre ++ [d]). split; [by rewrite <- app_assoc |].
        right. by exists pre, d.
Qed.

Lemma parse_entry_nul_free (line : bytes) :
  NUL ∉ line → NUL ∉ (parse_entry line).2.
Proof.
  intros Hfree Hin. apply Hfree.
  destruct (parse_entry_split line) as (pre & Hsplit & _).
  rewrite Hsplit. apply elem_of_app. by right.
Qed.


Lemma paths_differ (topic : bytes) :
  length (cstr topic) < MAX_TOPIC_LEN → log_path topic ≠ temp_path topic.
Proof.
  intros Hlen Heq. apply (f_equal length) in Heq.
  unfold log_path, temp_path in Heq.
  rewrite !length_take, !length_app in Heq.
  change (length LOG_DIR) with 4 in Heq.
  change (length (lit "/")) with 1 in Heq.
  change (length (lit ".log")) with 4 in Heq.
  change (length (lit ".log.tmp")) with 8 in Heq.
  unfold MAX_TOPIC_LEN in Hlen. lia.
Qed.


(** ** Lines without a timestamp *)




(** ** Replaying twice *)

Lemma replay_all_loop (env : os_env) (fd : Z) (lines : list bytes)
    (w : world) :
  fold_left (replay_all_line env fd) lines w
  = World (files w)
      (trace w ++ flat_map (λ l, write_events env fd (cstr l)) lines).
Proof.
  revert w. induction lines as [| l lines IH]; intros w.
  - simpl. by rewrite app_nil_r, world_eta.
  - cbn [fold_left flat_map]. rewrite IH.
    unfold replay_all_line, sys_write, write_events.
    destruct (write_ok env fd (cstr l)); cbn [files trace emit];
      by rewrite <- !app_assoc.
Qed.

Lemma all_replay_spec (env : os_env) (fd : Z) (topic : bytes)
    (p_duration now : Z) (w : world) :
  send_persisted_messages env fd topic PERSIST_ALL p_duration now w
  = World (files w) (trace w ++ all_replay_events env fd topic (files w)).
Proof.
  unfold send_persisted_messages, all_replay_events. cbv zeta.
  destruct (files w !! log_path topic) as [content |] eqn:E; [| done].
  rewrite replay_all_loop. cbn [emit files trace]. rewrite E.
  cbn [default from_option id]. by rewrite <- app_assoc.
Qed.

Lemma events_since_app (w : world) (f : gmap bytes bytes)
    (evs : list event) :
  events_since w (World f (trace w ++ evs)) = evs.
Proof. unfold events_since. cbn [trace]. by rewrite drop_app_length. Qed.

(** What a timed replay writes, and what it leaves as the log. *)
Lemma timed_replay_outcome (env : os_env) (fd : Z) (topic : bytes)
    (p_duration now : Z) (w : world) (content : bytes) :
  files w !! log_path topic = Some content →
  fopen_w_ok env (temp_path topic) = true →
  let w' :=
    send_persisted_messages env fd topic PERSIST_TIMED p_duration now w in
  let kept := kept_entries topic p_duration now content in
  all_writes (events_since w w') = map (λ e, (fd, e.2)) kept
  ∧ files w' !! log_path topic
    = Some (if rename_ok env (temp_path topic) (log_path topic)
            then concat (map row kept)
            else if decide (temp_path topic = log_path topic)
                 then concat (map row kept) else content).
Proof.
  intros Hlog Htmp.
  pose proof (timed_replay_spec env fd topic p_duration now w content
                Hlog Htmp) as Hspec.
  cbv zeta in Hspec. cbv zeta. unfold kept_entries. rewrite Hspec.
  destruct (rename_ok env _ _).
  - rewrite <- !app_assoc, events_since_app, !all_writes_app.
    rewrite all_writes_write_events, app_nil_r. cbn [files].
    by rewrite lookup_insert_eq.
  - rewrite <- !app_assoc, events_since_app, !all_writes_app.
    rewrite all_writes_write_events, app_nil_r. cbn [files].
    split; [done |].
    destruct (decide (temp_path topic = log_path topic)) as [-> | Hne].
    + by rewrite lookup_insert_eq.
    + by rewrite lookup_insert_ne.
Qed.

Lemma terminated_message (line : bytes) :
  terminated line → terminated (parse_entry line).2.
Proof.
  intros (body & Hline & Hbody).
  destruct (parse_entry_split line) as (pre & Hsplit & Hpre).
  destruct (parse_entry line).2 as [| x msg _] using rev_ind.
  - exfalso. rewrite app_nil_r in Hsplit. subst pre.
    destruct Hpre as [-> | (pre' & c & Hc & Hne)]; [by destruct body |].
    rewrite Hline in Hc. apply app_inj_tail in Hc as [_ <-]. done.
  - rewrite Hline, app_assoc in Hsplit.
    apply app_inj_tail in Hsplit as [-> <-].
    exists msg. split; [done |].
    intros Hin. apply Hbody, elem_of_app. by right.
Qed.

Lemma length_message (line : bytes) :
  length (parse_entry line).2 ≤ length line.
Proof.
  destruct (parse_entry_split line) as (pre & Hsplit & _).
  rewrite Hsplit at 2. rewrite length_app. lia.
Qed.

Lemma newline_free_message (line : bytes) :
  LF ∉ line → LF ∉ (parse_entry line).2.
Proof.
  intros Hfree Hin. apply Hfree.
  destruct (parse_entry_split line) as (pre & Hsplit & _).
  rewrite Hsplit. apply elem_of_app. by right.
Qed.

(** The line an entry of a tidy log is written back as. *)
Lemma row_shape (line : bytes) :
  NUL ∉ line → length line ≤ 1000 →
  let r := row (parse_entry line) in
  r ≠ [] ∧ (NUL ∉ r) ∧ length r ≤ BUFFER_SIZE - 1
  ∧ (terminated line → terminated r)
  ∧ (LF ∉ line → LF ∉ r)
  ∧ parse_entry r = parse_entry line.
Proof.
  intros Hnul Hlen r.
  pose proof (parse_entry_in_range line) as Hrange.
  pose proof (parse_entry_nul_free line Hnul) as Hmsg.
  pose proof (length_message line) as Hmlen.
  assert (Hr : r = fmt_ld (parse_entry line).1 ++ SP :: (parse_entry line).2).
  { unfold r, row, entry_line. by rewrite cstr_id. }
  destruct (fmt_ld_chars _ Hrange) as (Hne & Hlf & Hnul').
  pose proof (length_fmt_ld _ Hrange) as Hflen.
  split; [rewrite Hr; by destruct (fmt_ld _) |].
  split.
  { rewrite Hr. intros Hin. apply elem_of_app in Hin as [Hin | Hin]; [done |].
    apply elem_of_cons in Hin as [Hin | Hin]; [discriminate | done]. }
  split.
  { rewrite Hr, length_app. cbn [length]. unfold BUFFER_SIZE. lia. }
  split.
  { intros Hterm. apply terminated_message in Hterm as (m & Hm & Hfree).
    exists (fmt_ld (parse_entry line).1 ++ SP :: m).
    split; [rewrite Hr, Hm; by rewrite <- app_assoc |].
    intros Hin. apply elem_of_app in Hin as [Hin | Hin]; [done |].
    apply elem_of_cons in Hin as [Hin | Hin]; [discriminate | done]. }
  split.
  { intros Hfree. apply newline_free_message in Hfree. rewrite Hr.
    intros Hin. apply elem_of_app in Hin as [Hin | Hin]; [done |].
    apply elem_of_cons in Hin as [Hin | Hin]; [discriminate | done]. }
  unfold r, row. rewrite parse_entry_line by done.
  rewrite cstr_id by done. by destruct (parse_entry line).
Qed.

Lemma concat_elem (x : ascii) (l : bytes) (ls : list bytes) :
  x ∈ l → l ∈ ls → x ∈ concat ls.
Proof.
  intros Hx Hl. induction ls as [| l' ls IH]; [by apply elem_of_nil in Hl |].
  simpl. apply elem_of_app. apply elem_of_cons in Hl as [<- | Hl].
  - by left.
  - right. by apply IH.
Qed.

Lemma tidy_lines (content : bytes) :
  tidy_log content →
  chunked (file_lines content)
  ∧ Forall (λ l, (NUL ∉ l) ∧ length l ≤ 1000) (file_lines content).
Proof.
  intros [Hnul Hshort].
  destruct (file_lines_chunked content) as [Hch Hcat].
  split; [done |]. apply Forall_forall. intros l Hl. split.
  - intros Hin. apply Hnul. rewrite <- Hcat. by eapply concat_elem.
  - by eapply Forall_forall in Hshort.
Qed.

Lemma filter_again {A} (f : A → bool) (l : list A) :
  List.filter f (List.filter f l) = List.filter f l.
Proof.
  induction l as [| x l IH]; [done |]. simpl.
  destruct (f x) eqn:E; [| done]. simpl. by rewrite E, IH.
Qed.

(** The kept entries of tidy lines, written back, are again the lines of
    a file, and read as the same entries. *)
Lemma rewritten_lines (now p_duration : Z) (lines : list bytes) :
  chunked lines →
  Forall (λ l, (NUL ∉ l) ∧ length l ≤ 1000) lines →
  let kept := List.filter (fresh now p_duration) (entries_of lines) in
  chunked (map row kept) ∧ entries_of (map row kept) = kept.
Proof.
  intros Hch. induction Hch as [| l Hne Hfree Hlen | l ls Hne Hcl _ IH];
    intros Hall; cbn zeta.
  - split; [constructor | done].
  - apply Forall_cons in Hall as [[Hnul Hshort] _].
    destruct (row_shape l Hnul Hshort) as (R1 & R2 & R3 & _ & R5 & R6).
    cbn [entries_of map List.filter]. rewrite (cstr_id l) by done.
    destruct (fresh now p_duration (parse_entry l)).
    + split; [apply chunked_last; auto |].
      cbn [entries_of map]. by rewrite cstr_id, R6.
    + split; [constructor | done].
  - apply Forall_cons in Hall as [[Hnul Hshort] Hall].
    destruct (IH Hall) as [IH1 IH2].
    destruct (row_shape l Hnul Hshort) as (R1 & R2 & R3 & R4 & _ & R6).
    assert (Hterm : terminated l).
    { destruct Hcl as [[Hterm _] | [_ Hfull]]; [done |].
      unfold BUFFER_SIZE in Hfull. lia. }
    change (entries_of (l :: ls)) with (parse_entry (cstr l) :: entries_of ls).
    cbn [List.filter]. rewrite (cstr_id l) by done.
    destruct (fresh now p_duration (parse_entry l)); [| done].
    split.
    + cbn [map]. apply chunked_cons; [done | left; auto | done].
    + change (entries_of (map row (parse_entry l :: ?k)))
        with (parse_entry (cstr (row (parse_entry l))) :: entries_of (map row k)).
      by rewrite cstr_id, R6, IH2.
Qed.

(** Replaying the log a timed replay has rewritten keeps what the first
    replay kept. *)
Lemma kept_again (now p_duration : Z) (content : bytes) :
  tidy_log content →
  let kept :=
    List.filter (fresh now p_duration) (entries_of (file_lines content)) in
  List.filter (fresh now p_duration)
    (entries_of (file_lines (concat (map row kept))))
  = kept.
Proof.
  intros Htidy kept. destruct (tidy_lines content Htidy) as [Hch Hall].
  destruct (rewritten_lines now p_duration _ Hch Hall) as [H1 H2].
  fold kept in H1, H2.
  rewrite file_lines_concat, H2 by done. apply filter_again.
Qed.

Lemma events_since_emit3 (w : world) (e1 e2 e3 : event) :
  events_since w (emit e3 (emit e2 (emit e1 w))) = [e1; e2; e3].
Proof.
  unfold events_since, emit. cbn [trace]. rewrite <- !app_assoc.
  apply drop_app_length.
Qed.

(** C7, amended: replaying twice with the same mode, duration and clock
    reading writes the same messages, in the same order, both times.
    Under [PERSIST_ALL] this holds for every log, which the replay leaves
    as it is; under [PERSIST_TIMED] it holds for a log without NUL bytes
    whose lines have at most 1000 bytes, because the rewritten log then
    reads as the entries the first replay kept, each with its
    timestamp. *)
Theorem replay_twice_agrees (env : os_env) (fd : Z) (topic : bytes)
    (p_mode : persistence_mode_t) (p_duration now : Z) (w : world) :
  (p_mode = PERSIST_TIMED →
   ∀ content, files w !! log_path topic = Some content → tidy_log content) →
  replays_agree env fd topic p_mode p_duration now w
  ∧ (p_mode = PERSIST_ALL →
     files (send_persisted_messages env fd topic p_mode p_duration now w)
     = files w).
Proof.
  intros Htidy. unfold replays_agree. cbv zeta. destruct p_mode.
  - split; [| done]. cbn [send_persisted_messages].
    unfold events_since. by rewrite drop_all.
  - split; [| intros _; by rewrite all_replay_spec].
    rewrite !all_replay_spec. cbn [files].
    by rewrite !events_since_app.
  - split; [| done].
    destruct (files w !! log_path topic) as [content |] eqn:Hlog.
    + destruct (fopen_w_ok env (temp_path topic)) eqn:Htmp.
      * destruct (timed_replay_outcome env fd topic p_duration now w content
                    Hlog Htmp) as [Hw1 Hlog1].
        cbv zeta in Hw1, Hlog1.
        destruct (timed_replay_outcome env fd topic p_duration now _ _
                    Hlog1 Htmp) as [Hw2 _].
        cbv zeta in Hw2. rewrite Hw1, Hw2. f_equal.
        unfold kept_entries.
        destruct (decide (temp_path topic = log_path topic)) as [E | Hne];
          [done |].
        destruct (rename_ok env _ _); [| done].
        symmetry. apply kept_again. by apply Htidy.
      * assert (Hfail : ∀ w0, files w0 = files w →
                  send_persisted_messages env fd topic PERSIST_TIMED
                    p_duration now w0
                  = emit (EvReport RTempOpenFailed)
                      (emit (EvFopen (temp_path topic) OpenWrite false)
                         (emit (EvFopen (log_path topic) OpenRead true) w0))).
        { intros w0 Hf. unfold send_persisted_messages. cbv zeta.
          by rewrite Hf, Hlog, Htmp. }
        rewrite (Hfail w eq_refl). rewrite Hfail by done.
        by rewrite !events_since_emit3.
    + assert (Hfail : ∀ w0, files w0 = files w →
                send_persisted_messages env fd topic PERSIST_TIMED
                  p_duration now w0
                = emit (EvFopen (log_path topic) OpenRead false) w0).
      { intros w0 Hf. unfold send_persisted_messages. cbv zeta.
        by rewrite Hf, Hlog. }
      rewrite (Hfail w eq_refl). rewrite Hfail by done.
      by rewrite !events_since_emit.
Qed.

Lemma replay_twice_agrees_witness :
  tidy_log weather_log
  ∧ replays_agree reliable_os 9 (lit "weather") PERSIST_TIMED 10 200
      weather_world.
Proof.
  assert (Htidy : tidy_log weather_log).
  { split; [decide_now |].
    assert (file_lines weather_log
            = [lit "100 old" ++ [LF]; lit "195 new" ++ [LF]]) as ->
      by (vm_compute; reflexivity).
    repeat apply Forall_cons_2; [vm_compute; lia | vm_compute; lia |].
    apply Forall_nil_2. }
  split; [exact Htidy |].
  apply (replay_twice_agrees reliable_os 9 (lit "weather") PERSIST_TIMED 10
           200 weather_world).
  intros _ content Hlog.
  assert (content = weather_log) as ->; [| exact Htidy].
  vm_compute in Hlog. by injection Hlog as <-.
Defined.

(** At time 10 with a retention of 6 seconds both entries are kept and
    sent.  The first is written back with a space after its timestamp, one
    character longer than the line buffer: the second replay reads it in
    two pieces, sends the first piece, and takes the second, with the
    entry that follows, for an entry of time 0, which it drops. *)
Lemma long_line_replays :
  let replay :=
    send_persisted_messages reliable_os 9 (lit "weather") PERSIST_TIMED 6 10 in
  let w1 := replay long_line_world in
  let w2 := replay w1 in
  all_writes (events_since long_line_world w1)
  = [(9%Z, replicate 1022 "x"%char); (9%Z, lit "y" ++ [LF])]
  ∧ all_writes (events_since w1 w2) = [(9%Z, replicate 1021 "x"%char)].
Proof. split; vm_compute; reflexivity. Qed.

Lemma long_line_breaks_replay :
  ¬ replays_agree reliable_os 9 (lit "weather") PERSIST_TIMED 6 10
      long_line_world.
Proof.
  unfold replays_agree. cbv zeta. destruct long_line_replays as [-> ->].
  discriminate.
Qed.

(** The other half of [tidy_log]: a line is written back only up to its
    first NUL, without its newline, and runs into the next one. *)
Lemma nul_byte_breaks_replay :
  ¬ replays_agree reliable_os 9 (lit "weather") PERSIST_TIMED 6 10 nul_world.
Proof.
  unfold replays_agree. cbv zeta.
  assert (all_writes
            (events_since nul_world
               (send_persisted_messages reliable_os 9 (lit "weather")
                  PERSIST_TIMED 6 10 nul_world))
          = [(9%Z, lit "a"); (9%Z, lit "c" ++ [LF])]) as ->
    by (vm_compute; reflexivity).
  assert (all_writes
            (events_since
               (send_persisted_messages reliable_os 9 (lit "weather")
                  PERSIST_TIMED 6 10 nul_world)
               (send_persisted_messages reliable_os 9 (lit "weather")
                  PERSIST_TIMED 6 10
                  (send_persisted_messages reliable_os 9 (lit "weather")
                     PERSIST_TIMED 6 10 nul_world)))
          = [(9%Z, lit "a7 c" ++ [LF])]) as ->
    by (vm_compute; reflexivity).
  discriminate.
Qed.

(** * Further properties *)

(** ** Accepting a connection *)

Lemma first_free_slot_found (table : list pollfd) (n j i : nat) :
  first_free_slot n j table = Some i →
  j ≤ i < j + n ∧ ∃ p, table !! i = Some p ∧ pfd_fd p = (-1)%Z.
Proof.
  revert j. induction n as [| n IH]; intros j; simpl; [done |].
  destruct (table !! j) as [p |] eqn:Hp.
  - destruct (decide (pfd_fd p = (-1)%Z)) as [Hfd | _].
    + intros [= <-]. split; [lia | eauto].
    + intros H. apply IH in H as [H1 H2]. split; [lia | done].
  - intros H. apply IH in H as [H1 H2]. split; [lia | done].
Qed.

Lemma first_free_slot_lowest (table : list pollfd) (n j i : nat)
    (p : pollfd) :
  j ≤ i < j + n →
  table !! i = Some p → pfd_fd p = (-1)%Z →
  (∀ k, j ≤ k < i → ∃ q, table !! k = Some q ∧ pfd_fd q ≠ (-1)%Z) →
  first_free_slot n j table = Some i.
Proof.
  revert j. induction n as [| n IH]; intros j Hi Hp Hfd Hbusy; [lia |].
  simpl. destruct (decide (j = i)) as [-> | Hne].
  - rewrite Hp. by destruct (decide _).
  - destruct (Hbusy j) as (q & -> & Hq); [lia |].
    destruct (decide _); [done |].
    apply IH; [lia | done | done |]. intros k Hk. apply Hbusy. lia.
Qed.

(** The handler, once [accept] has succeeded. *)
Lemma handle_new_connection_accepted (st : server) (new_socket : Z) :
  (0 ≤ new_socket)%Z →
  handle_new_connection new_socket st
  = match first_free_slot MAX_CLIENTS 1 (fds st) with
    | Some i =>
        Server (alter (λ _, Pollfd new_socket POLLIN) i (fds st))
          (alter (λ c, Client new_socket (c_type c) (c_topic c)) i
             (clients st))
          (emit (EvReport (RNewConnection new_socket))
             (emit (EvNonBlock new_socket) (os st)))
    | None =>
        Server (fds st) (clients st)
          (emit (EvClose new_socket)
             (emit (EvReport RMaxClients)
                (emit (EvNonBlock new_socket) (os st))))
    end.
Proof.
  intros Hsock. unfold handle_new_connection.
  destruct (Z.ltb_spec new_socket 0) as [? | _]; [lia |]. cbv zeta.
  unfold with_os. cbn [fds clients os].
  destruct (first_free_slot MAX_CLIENTS 1 (fds st)); [| done].
  unfold set_client_fd, set_pfd_events, set_pfd_fd.
  cbn [fds clients os]. by rewrite list_alter_alter_eq.
Qed.

(** X1: an accepted connection goes into the free slot of lowest index
    among slots 1 to [MAX_CLIENTS]: both tables get the descriptor there
    and the slot is polled for input.  The type and the topic of the slot
    are left as its last occupant left them; nothing else changes and
    nothing is closed. *)
Theorem accept_takes_lowest_free_slot (st : server) (new_socket : Z)
    (i : nat) (p : pollfd) (c : client_t) :
  (0 ≤ new_socket)%Z →
  1 ≤ i ≤ MAX_CLIENTS →
  fds st !! i = Some p → pfd_fd p = (-1)%Z →
  clients st !! i = Some c →
  (∀ k, 1 ≤ k < i → ∃ q, fds st !! k = Some q ∧ pfd_fd q ≠ (-1)%Z) →
  handle_new_connection new_socket st
  = Server (<[i := Pollfd new_socket POLLIN]> (fds st))
      (<[i := Client new_socket (c_type c) (c_topic c)]> (clients st))
      (emit (EvReport (RNewConnection new_socket))
         (emit (EvNonBlock new_socket) (os st))).
Proof.
  intros Hsock Hi Hp Hfd Hc Hbusy.
  rewrite handle_new_connection_accepted by done.
  rewrite (first_free_slot_lowest _ _ _ i p) by (done || lia).
  by rewrite (alter_to_insert _ _ _ _ Hp), (alter_to_insert _ _ _ _ Hc).
Qed.

Lemma accept_takes_lowest_free_slot_witness :
  handle_new_connection 7 two_clients
  = Server (<[3 := Pollfd 7 POLLIN]> (fds two_clients))
      (<[3 := Client 7 CLIENT_TYPE_UNKNOWN []]> (clients two_clients))
      (emit (EvReport (RNewConnection 7))
         (emit (EvNonBlock 7) (os two_clients))).
Proof.
  apply (accept_takes_lowest_free_slot two_clients 7 3 free_pollfd
           free_client).
  - lia.
  - unfold MAX_CLIENTS. lia.
  - reflexivity.
  - reflexivity.
  - reflexivity.
  - intros k Hk. assert (k = 1 ∨ k = 2) as [-> | ->] by lia;
      eexists; (split; [reflexivity | discriminate]).
Defined.

Lemma closes_of_app (l k : list event) :
  closes_of (l ++ k) = closes_of l ++ closes_of k.
Proof. apply omap_app. Qed.

(** X2: no accepted descriptor is lost.  After the call it is either in
    both tables, at one slot from 1 to [MAX_CLIENTS], with every other slot
    as before and nothing closed; or in neither, the tables being as
    before, and it has been closed. *)
Theorem accepted_descriptor_kept_or_closed (st : server) (new_socket : Z) :
  (0 ≤ new_socket)%Z →
  length (clients st) = length (fds st) →
  let st' := handle_new_connection new_socket st in
  (∃ i, 1 ≤ i ≤ MAX_CLIENTS
        ∧ pfd_fd <$> fds st' !! i = Some new_socket
        ∧ c_fd <$> clients st' !! i = Some new_socket
        ∧ same_elsewhere i st st'
        ∧ closes_of (events_since (os st) (os st')) = [])
  ∨ (fds st' = fds st ∧ clients st' = clients st
     ∧ closes_of (events_since (os st) (os st')) = [new_socket]).
Proof.
  intros Hsock Hlen. cbv zeta.
  rewrite handle_new_connection_accepted by done.
  destruct (first_free_slot MAX_CLIENTS 1 (fds st)) as [i |] eqn:E.
  - left. exists i.
    apply first_free_slot_found in E as (Hi & p & Hp & _).
    destruct (lookup_lt_is_Some_2 (clients st) i) as [c Hc].
    { rewrite Hlen. by eapply lookup_lt_Some. }
    unfold same_elsewhere. cbn [fds clients os].
    split; [lia |].
    rewrite !list_lookup_alter_eq, Hp, Hc.
    split; [done |]. split; [done |]. split.
    + rewrite !length_alter. split; [done |]. split; [done |].
      intros j Hj. by rewrite !list_lookup_alter_ne.
    + unfold events_since, emit. cbn [trace].
      by rewrite <- app_assoc, drop_app_length.
  - right. cbn [fds clients os]. split; [done |]. split; [done |].
    unfold events_since, emit. cbn [trace].
    by rewrite <- !app_assoc, drop_app_length.
Qed.

Lemma accepted_descriptor_kept_or_closed_witness :
  let st' := handle_new_connection 40 crowded_server in
  (∃ i, 1 ≤ i ≤ MAX_CLIENTS
        ∧ pfd_fd <$> fds st' !! i = Some 40%Z
        ∧ c_fd <$> clients st' !! i = Some 40%Z
        ∧ same_elsewhere i crowded_server st'
        ∧ closes_of (events_since (os crowded_server) (os st')) = [])
  ∨ (fds st' = fds crowded_server ∧ clients st' = clients crowded_server
     ∧ closes_of (events_since (os crowded_server) (os st')) = [40%Z]).
Proof.
  apply (accepted_descriptor_kept_or_closed crowded_server 40).
  - lia.
  - reflexivity.
Defined.

(** ** What the handler does to the tables *)

(** The handler changes the tables only through the assignments to type
    and topic and the two teardowns, all on its own slot: a property of the
    state that these keep, and that does not depend on the world around,
    is kept by the handler. *)
Lemma handler_keeps (env : os_env) (i : nat) (Q : server → Prop) :
  (∀ f st, Q st → Q (with_os f st)) →
  (∀ t st, Q st → Q (set_client_type i t st)) →
  (∀ s st, Q st → Q (set_client_topic i s st)) →
  (∀ st, Q st → Q (drop_client i st)) →
  (∀ st, Q st → Q (disconnect_publisher i st)) →
  ∀ incoming p_mode p_duration now st,
    Q st → Q (handle_client_data env i incoming p_mode p_duration now st).
Proof.
  intros Hos Hty Htopic Hdrop Hpub incoming p_mode p_duration now st HQ.
  assert (Hblock : ∀ buffer st0, Q st0 →
            Q (publish_or_reject env i buffer p_mode now st0)).
  { intros buffer st0 H0. unfold publish_or_reject. cbv zeta.
    destruct (starts_with (lit "PUB ") buffer).
    - apply Hpub. destruct (strchr buffer LF); [| by apply Hos].
      destruct (_ && _); [| by apply Hos].
      unfold forward_to_subscribers. by repeat apply Hos.
    - destruct (decide _); [| done]. by apply Hdrop, Hos. }
  unfold handle_client_data. destruct (sys_read incoming) as [valread data].
  destruct (valread <=? 0)%Z; [by apply Hdrop, Hos |].
  unfold identify_client. cbv zeta.
  destruct (decide _); [| by apply Hblock].
  destruct (starts_with (lit "SUB ") (cstr data)).
  - destruct (_ && _); apply Hblock.
    + by apply Hos, Hos, Htopic, Hty.
    + by apply Hdrop, Hos.
  - destruct (starts_with (lit "PUB ") (cstr data)); [by apply Hblock |].
    by apply Hdrop, Hos.
Qed.

Lemma same_elsewhere_fds (i : nat) (st : server) (f : pollfd → pollfd)
    (st' : server) :
  same_elsewhere i st st' →
  same_elsewhere i st (Server (alter f i (fds st')) (clients st') (os st')).
Proof.
  intros (H1 & H2 & H3). unfold same_elsewhere. cbn [fds clients].
  rewrite !length_alter. split; [done |]. split; [done |].
  intros j Hj. rewrite !list_lookup_alter_ne by done. by apply H3.
Qed.

Lemma same_elsewhere_clients (i : nat) (st : server)
    (g : client_t → client_t) (st' : server) :
  same_elsewhere i st st' →
  same_elsewhere i st (Server (fds st') (alter g i (clients st')) (os st')).
Proof.
  intros (H1 & H2 & H3). unfold same_elsewhere. cbn [fds clients].
  rewrite !length_alter. split; [done |]. split; [done |].
  intros j Hj. rewrite !list_lookup_alter_ne by done. by apply H3.
Qed.

Lemma same_elsewhere_refl (i : nat) (st : server) : same_elsewhere i st st.
Proof. by unfold same_elsewhere. Qed.

Lemma handler_same_elsewhere (env : os_env) (i : nat)
    (incoming : option bytes) (p_mode : persistence_mode_t)
    (p_duration now : Z) (st : server) :
  same_elsewhere i st
    (handle_client_data env i incoming p_mode p_duration now st).
Proof.
  apply (handler_keeps env i (same_elsewhere i st));
    [| | | | | apply same_elsewhere_refl].
  - intros f st' H. exact H.
  - intros t st' H. by apply same_elsewhere_clients.
  - intros s st' H. by apply same_elsewhere_clients.
  - intros st' H. unfold drop_client. cbv zeta.
    apply same_elsewhere_clients, same_elsewhere_clients,
      same_elsewhere_clients, same_elsewhere_fds. exact H.
  - intros st' H. unfold disconnect_publisher. cbv zeta.
    apply same_elsewhere_clients, same_elsewhere_fds. exact H.
Qed.

(** X3: whatever arrives on slot [i], and in whatever state the tables
    are, the handler leaves every other slot of both tables as it was, and
    both tables at their length. *)
Theorem handler_touches_own_slot_only (env : os_env) (i : nat)
    (incoming : option bytes) (p_mode : persistence_mode_t)
    (p_duration now : Z) (st : server) :
  let st' := handle_client_data env i incoming p_mode p_duration now st in
  length (fds st') = length (fds st)
  ∧ length (clients st') = length (clients st)
  ∧ ∀ j, j ≠ i →
      fds st' !! j = fds st !! j ∧ clients st' !! j = clients st !! j.
Proof. apply handler_same_elsewhere. Qed.

(** ** Invariants of the loop of [main] *)

Lemma tables_in_step_alter (i : nat) (v : Z) (ev : pollfd → Z)
    (ty : client_t → client_type_t) (tp : client_t → bytes) (w : world)
    (st : server) :
  tables_in_step st →
  tables_in_step
    (Server (alter (λ p, Pollfd v (ev p)) i (fds st))
       (alter (λ c, Client v (ty c) (tp c)) i (clients st)) w).
Proof.
  intros (H1 & H2 & H3). unfold tables_in_step. cbn [fds clients].
  rewrite !length_alter. split; [done |]. split; [done |].
  intros j p c. destruct (decide (i = j)) as [<- | Hne].
  - rewrite !list_lookup_alter_eq.
    destruct (fds st !! i), (clients st !! i); simpl; try done.
    by intros [= <-] [= <-].
  - rewrite !list_lookup_alter_ne by done. apply H3.
Qed.

Lemma tables_in_step_client (i : nat) (g : client_t → client_t) (w : world)
    (st : server) :
  (∀ c, c_fd (g c) = c_fd c) →
  tables_in_step st →
  tables_in_step (Server (fds st) (alter g i (clients st)) w).
Proof.
  intros Hg (H1 & H2 & H3). unfold tables_in_step. cbn [fds clients].
  rewrite !length_alter. split; [done |]. split; [done |].
  intros j p c Hp. destruct (decide (i = j)) as [<- | Hne].
  - rewrite list_lookup_alter_eq.
    destruct (clients st !! i) as [c0 |] eqn:Hc; simpl; [| done].
    intros [= <-]. rewrite Hg. by eapply H3.
  - rewrite list_lookup_alter_ne by done. by apply H3.
Qed.

Lemma handler_keeps_tables_in_step (env : os_env) (i : nat)
    (incoming : option bytes) (p_mode : persistence_mode_t)
    (p_duration now : Z) (st : server) :
  tables_in_step st →
  tables_in_step (handle_client_data env i incoming p_mode p_duration now st).
Proof.
  apply (handler_keeps env i tables_in_step).
  - intros f st' H. exact H.
  - intros t st' H. by apply tables_in_step_client.
  - intros s st' H. by apply tables_in_step_client.
  - intros st' H. unfold drop_client, set_client_topic, set_client_type,
      set_client_fd, set_pfd_fd, with_os. cbn [fds clients os].
    rewrite !list_alter_alter_eq.
    by apply (tables_in_step_alter i (-1) pfd_events
                (λ _, CLIENT_TYPE_UNKNOWN) (λ _, [])).
  - intros st' H. unfold disconnect_publisher, set_client_fd, set_pfd_fd,
      with_os. cbn [fds clients os].
    by apply (tables_in_step_alter i (-1) pfd_events c_type c_topic).
Qed.

Lemma accept_keeps_tables_in_step (new_socket : Z) (st : server) :
  tables_in_step st → tables_in_step (handle_new_connection new_socket st).
Proof.
  intros H. destruct (Z.ltb_spec new_socket 0) as [Hneg | Hpos].
  - unfold handle_new_connection.
    destruct (Z.ltb_spec new_socket 0); [done | lia].
  - rewrite handle_new_connection_accepted by done.
    destruct (first_free_slot _ _ _); [| done].
    by apply (tables_in_step_alter _ new_socket (λ _, POLLIN) c_type c_topic).
Qed.

Lemma serve_clients_keeps (env : os_env) (Q : server → Prop)
    (revents : nat → option (option bytes)) (p_mode : persistence_mode_t)
    (p_duration now : Z) (n i : nat) (st : server) :
  (∀ k incoming st0,
     i ≤ k →
     Q st0 → Q (handle_client_data env k incoming p_mode p_duration now st0)) →
  Q st → Q (serve_clients env n i revents p_mode p_duration now st).
Proof.
  revert i st. induction n as [| n IH]; intros i st Hstep HQ; [done |].
  cbn [serve_clients]. apply IH.
  - intros k incoming st0 Hk. apply Hstep. lia.
  - destruct (revents i); [| done]. destruct (decide _); [| done].
    by apply Hstep.
Qed.

(** X4: in every state the broker gets into, both tables have their
    [MAX_CLIENTS + 1] entries, and the two descriptors of a slot, the one
    [poll] watches and the one the forwarding loop writes to, are the
    same. *)
Theorem reachable_tables_in_step (env : os_env)
    (p_mode : persistence_mode_t) (p_duration : Z) (st : server) :
  reachable env p_mode p_duration st → tables_in_step st.
Proof.
  induction 1 as [server_fd w | pr now st _ IH].
  - unfold tables_in_step, initial_server. cbn [fds clients].
    rewrite !length_cons, !length_replicate.
    split; [done |]. split; [done |].
    intros [| j] p c; rewrite !lookup_cons; [by intros [= <-] [= <-] |].
    rewrite !lookup_replicate. by intros [-> _] [-> _].
  - unfold serve_round. apply serve_clients_keeps.
    + intros k incoming st0 _. apply handler_keeps_tables_in_step.
    + destruct (accepted pr); [by apply accept_keeps_tables_in_step | done].
Qed.

Lemma reachable_tables_in_step_witness :
  tables_in_step
    (serve_round reliable_os (PollResult (Some 5%Z) (only_slot 1 (lit "x")))
       PERSIST_NONE 0 100 (initial_server 3 empty_world)).
Proof.
  apply (reachable_tables_in_step reliable_os PERSIST_NONE 0).
  apply reachable_round, reachable_start.
Defined.

(** X5: a round of the loop never touches slot 0, the slot of the
    listening socket: it is not given to a client, not closed and not
    rewritten, whatever [poll] reports. *)
Theorem listening_slot_untouched (env : os_env) (pr : poll_result)
    (p_mode : persistence_mode_t) (p_duration now : Z) (st : server) :
  let st' := serve_round env pr p_mode p_duration now st in
  fds st' !! 0 = fds st !! 0 ∧ clients st' !! 0 = clients st !! 0.
Proof.
  cbv zeta. unfold serve_round.
  apply (serve_clients_keeps env
           (λ s, fds s !! 0 = fds st !! 0 ∧ clients s !! 0 = clients st !! 0)).
  - intros k incoming st0 Hk [H1 H2].
    destruct (handler_same_elsewhere env k incoming p_mode p_duration
                now st0) as (_ & _ & Hsame).
    destruct (Hsame 0) as [E1 E2]; [lia |]. by rewrite E1, E2.
  - destruct (accepted pr) as [new_socket |]; [| done].
    destruct (Z.ltb_spec new_socket 0) as [Hneg | Hpos].
    + unfold handle_new_connection.
      destruct (Z.ltb_spec new_socket 0); [done | lia].
    + rewrite handle_new_connection_accepted by done.
      destruct (first_free_slot _ _ _) as [i |] eqn:E; [| done].
      apply first_free_slot_found in E as [Hi _]. cbn [fds clients].
      by rewrite !list_lookup_alter_ne by lia.
Qed.

(** ** What is asked of the operating system *)

Lemma grows_by_refl (P : event → Prop) (w : world) : grows_by P w w.
Proof. exists []. by rewrite app_nil_r. Qed.

Lemma grows_by_mono (P Q : event → Prop) (w w' : world) :
  (∀ e, P e → Q e) → grows_by P w w' → grows_by Q w w'.
Proof.
  intros HPQ (evs & H & F). exists evs. split; [done |].
  eapply Forall_impl; [exact F | exact HPQ].
Qed.

Lemma grows_by_emit (P : event → Prop) (e : event) (w w1 : world) :
  P e → grows_by P w w1 → grows_by P w (emit e w1).
Proof.
  intros He (evs & H & F). exists (evs ++ [e]). unfold emit. cbn [trace].
  rewrite H, app_assoc. split; [done |]. apply Forall_app. by split; [| constructor].
Qed.

Lemma grows_by_set_files (P : event → Prop) (f : gmap bytes bytes)
    (w w1 : world) :
  grows_by P w w1 → grows_by P w (set_files f w1).
Proof. done. Qed.

Lemma grows_by_sys_write (P : event → Prop) (env : os_env) (r : report)
    (fd : Z) (data : bytes) (w w1 : world) :
  P (EvWrite fd data) → P (EvReport r) →
  grows_by P w w1 → grows_by P w (sys_write env r fd data w1).
Proof.
  intros Hw Hr H. unfold sys_write. cbv zeta.
  destruct (write_ok env fd data); repeat apply grows_by_emit; done.
Qed.

Lemma grows_by_fold_left {A} (P : event → Prop) (f : world → A → world)
    (l : list A) (w w1 : world) :
  (∀ w2 a, grows_by P w w2 → grows_by P w (f w2 a)) →
  grows_by P w w1 → grows_by P w (fold_left f l w1).
Proof.
  intros Hf. revert w1. induction l as [| a l IH]; intros w1 H; [done |].
  cbn [fold_left]. by apply IH, Hf.
Qed.

Lemma grows_by_events (P : event → Prop) (w w' : world) :
  grows_by P w w' → Forall P (events_since w w').
Proof.
  intros (evs & H & F). unfold events_since. by rewrite H, drop_app_length.
Qed.

Lemma persist_message_grows (P : event → Prop) (env : os_env)
    (topic message : bytes) (p_mode : persistence_mode_t) (now : Z)
    (w w1 : world) :
  (∀ e, store_event None e → P e) →
  grows_by P w w1 →
  grows_by P w (persist_message env topic message p_mode now w1).
Proof.
  intros HP H. unfold persist_message. destruct p_mode; [done | |]; cbv zeta;
    (destruct (fopen_w_ok env (log_path topic));
     [apply grows_by_set_files | apply grows_by_emit; [by apply HP |]];
     by apply grows_by_emit; [apply HP |]).
Qed.

Lemma replay_grows (P : event → Prop) (env : os_env) (fd : Z)
    (topic : bytes) (p_mode : persistence_mode_t) (p_duration now : Z)
    (w w1 : world) :
  (∀ e, store_event (Some fd) e → P e) →
  grows_by P w w1 →
  grows_by P w (send_persisted_messages env fd topic p_mode p_duration now w1).
Proof.
  intros HP H.
  assert (Hopen : ∀ path m ok w2,
            grows_by P w w2 → grows_by P w (emit (EvFopen path m ok) w2)).
  { intros path m ok w2. by apply grows_by_emit, HP. }
  assert (Hrep : ∀ r w2,
            store_event (Some fd) (EvReport r) →
            grows_by P w w2 → grows_by P w (emit (EvReport r) w2)).
  { intros r w2 Hr. by apply grows_by_emit, HP. }
  assert (Hwrite : ∀ data w2,
            grows_by P w w2 →
            grows_by P w (sys_write env RReplayWriteFailed fd data w2)).
  { intros data w2. by apply grows_by_sys_write; apply HP. }
  unfold send_persisted_messages. destruct p_mode; [done | |];
    cbv zeta; (destruct (files w1 !! log_path topic); [| by apply Hopen]).
  - apply grows_by_fold_left; [| by apply Hopen].
    intros w2 line H2. unfold replay_all_line. by apply Hwrite.
  - destruct (fopen_w_ok env (temp_path topic));
      [| by apply Hrep; [| apply Hopen, Hopen]].
    match goal with
    | |- context [fold_left ?f ?l ?w0] =>
        assert (Hloop : grows_by P w (fold_left f l w0))
    end.
    { apply grows_by_fold_left;
        [| by apply grows_by_set_files, Hopen, Hopen].
      intros w2 line H2. unfold replay_timed_line.
      destruct (parse_entry (cstr line)) as [msg_time msg_content].
      destruct (_ <=? _)%Z; [| done]. cbv zeta.
      apply grows_by_set_files. by apply Hwrite. }
    destruct (rename_ok env _ _).
    + apply grows_by_emit; [by apply HP |]. by apply grows_by_set_files.
    + apply Hrep; [done |]. apply grows_by_emit; [by apply HP | done].
Qed.

Lemma forward_loop_grows (env : os_env) (n j : nat) (table : list pollfd)
    (cls : list client_t) (pub_topic msg : bytes) (w w1 : world) :
  grows_by keeps_descriptors w w1 →
  grows_by keeps_descriptors w
    (forward_loop env n j table cls pub_topic msg w1).
Proof.
  revert j w1. induction n as [| n IH]; intros j w1 H; [done |].
  cbn [forward_loop]. apply IH. unfold forward_to_slot. cbv zeta.
  destruct (_ && _); [| done].
  destruct (bool_decide _); [by apply grows_by_emit |].
  by apply grows_by_sys_write.
Qed.

Lemma store_event_keeps_descriptors (fd : option Z) (e : event) :
  store_event fd e → keeps_descriptors e.
Proof. by destruct e. Qed.

(** ** One read for each connection *)

Lemma closes_of_kept (evs : list event) :
  Forall keeps_descriptors evs → closes_of evs = [].
Proof.
  induction 1 as [| e evs He _ IH]; [done |]. cbn. by destruct e.
Qed.

Lemma still_open_os (i : nat) (fd : Z) (w : world) (f : world → world)
    (st : server) :
  (∀ w1, grows_by keeps_descriptors w w1 → grows_by keeps_descriptors w (f w1)) →
  still_open i fd w st → still_open i fd w (with_os f st).
Proof. intros Hf (H1 & H2 & H3). repeat split; [done | done |]. by apply Hf. Qed.

Lemma still_open_report (i : nat) (fd : Z) (w : world) (r : report)
    (st : server) :
  still_open i fd w st → still_open i fd w (with_os (emit (EvReport r)) st).
Proof. apply still_open_os. intros w1. by apply grows_by_emit. Qed.

Lemma still_open_clients (i : nat) (fd : Z) (w : world)
    (g : client_t → client_t) (st : server) :
  still_open i fd w st →
  still_open i fd w (Server (fds st) (alter g i (clients st)) (os st)).
Proof.
  intros (H1 & H2 & H3). repeat split; [done | | done]. cbn [clients].
  rewrite list_lookup_alter_eq. by apply fmap_is_Some.
Qed.

Lemma close_hangs_up (i : nat) (fd : Z) (w : world) (f : pollfd → pollfd)
    (g : client_t → client_t) (st : server) :
  (∀ p, pfd_fd (f p) = (-1)%Z) → (∀ c, c_fd (g c) = (-1)%Z) →
  still_open i fd w st →
  hung_up i fd w
    (Server (alter f i (fds st)) (alter g i (clients st))
       (emit (EvClose (pfd_fd (pfd_at i st))) (os st))).
Proof.
  intros Hf Hg (H1 & [c Hc] & evs & Ht & Hevs). unfold hung_up, pfd_at.
  cbn [fds clients os]. rewrite !list_lookup_alter_eq, Hc.
  destruct (fds st !! i) as [p |]; [| done]. injection H1 as <-.
  cbn. rewrite Hf, Hg. split; [done |]. split; [done |].
  unfold events_since, emit. cbn [trace].
  rewrite Ht, <- app_assoc, drop_app_length, closes_of_app.
  by rewrite closes_of_kept.
Qed.

Lemma drop_client_hangs_up (i : nat) (fd : Z) (w : world) (st : server) :
  still_open i fd w st → hung_up i fd w (drop_client i st).
Proof.
  intros H. unfold drop_client, set_client_topic, set_client_type,
    set_client_fd, set_pfd_fd, with_os. cbn [fds clients os].
  rewrite !list_alter_alter_eq.
  by apply (close_hangs_up i fd w (λ p, Pollfd (-1) (pfd_events p))
              (λ _, Client (-1) CLIENT_TYPE_UNKNOWN [])).
Qed.

Lemma disconnect_publisher_hangs_up (i : nat) (fd : Z) (w : world)
    (st : server) :
  still_open i fd w st → hung_up i fd w (disconnect_publisher i st).
Proof.
  intros H. unfold disconnect_publisher, set_client_fd, set_pfd_fd, with_os.
  cbn [fds clients os].
  by apply (close_hangs_up i fd w (λ p, Pollfd (-1) (pfd_events p))
              (λ c, Client (-1) (c_type c) (c_topic c))).
Qed.

Lemma handler_hung_up (env : os_env) (i : nat) (incoming : option bytes)
    (p_mode : persistence_mode_t) (p_duration now : Z) (st : server)
    (p : pollfd) (c : client_t) :
  fds st !! i = Some p → clients st !! i = Some c →
  hung_up i (pfd_fd p) (os st)
    (handle_client_data env i incoming p_mode p_duration now st).
Proof.
  intros Hp Hc.
  assert (Hst : still_open i (pfd_fd p) (os st) st).
  { repeat split; [by rewrite Hp | by rewrite Hc | apply grows_by_refl]. }
  assert (Hpub : ∀ buffer st0,
            starts_with (lit "PUB ") buffer = true →
            still_open i (pfd_fd p) (os st) st0 →
            hung_up i (pfd_fd p) (os st)
              (publish_or_reject env i buffer p_mode now st0)).
  { intros buffer st0 E H0. unfold publish_or_reject. cbv zeta. rewrite E.
    apply disconnect_publisher_hangs_up.
    destruct (strchr buffer LF); [| by apply still_open_report].
    destruct (_ && _); [| by apply still_open_report].
    unfold forward_to_subscribers. apply still_open_os.
    { intros w1. apply forward_loop_grows. }
    apply still_open_os; [| by apply still_open_report].
    intros w1. apply persist_message_grows.
    apply store_event_keeps_descriptors. }
  assert (Hsub : ∀ buffer st0,
            starts_with (lit "PUB ") buffer = false →
            c_type (client_at i st0) = CLIENT_TYPE_SUBSCRIBER →
            still_open i (pfd_fd p) (os st) st0 →
            hung_up i (pfd_fd p) (os st)
              (publish_or_reject env i buffer p_mode now st0)).
  { intros buffer st0 E Hty H0. unfold publish_or_reject. cbv zeta.
    rewrite E. destruct (decide _); [| done].
    by apply drop_client_hangs_up, still_open_report. }
  unfold handle_client_data. destruct (sys_read incoming) as [valread data].
  destruct (valread <=? 0)%Z;
    [by apply drop_client_hangs_up, still_open_report |].
  unfold identify_client. cbv zeta.
  destruct (decide (c_type (client_at i st) = CLIENT_TYPE_UNKNOWN))
    as [Hty | Hty].
  - destruct (starts_with (lit "SUB ") (cstr data)) eqn:Esub.
    + pose proof (command_words_differ _ Esub) as Epub.
      destruct (_ && _).
      * apply Hsub; [done | |].
        -- unfold client_at, set_client_topic, set_client_type, with_os.
           cbn [fds clients os]. rewrite list_alter_alter_eq.
           by rewrite list_lookup_alter_eq, Hc.
        -- apply still_open_os.
           { intros w1. apply replay_grows.
             apply store_event_keeps_descriptors. }
           apply still_open_report.
           by apply still_open_clients, still_open_clients.
      * unfold publish_or_reject. cbv zeta. rewrite Epub.
        assert (Hfree : c_type (client_at i
                  (drop_client i
                     (with_os (emit (EvReport (RMalformedSub
                        (pfd_fd (pfd_at i st)) (cstr data)))) st)))
                = CLIENT_TYPE_UNKNOWN).
        { unfold client_at, drop_client, set_client_topic, set_client_type,
            set_client_fd, set_pfd_fd, with_os. cbn [fds clients os].
          rewrite !list_alter_alter_eq.
          by rewrite list_lookup_alter_eq, Hc. }
        destruct (decide _) as [Hbad | _]; [congruence |].
        by apply drop_client_hangs_up, still_open_report.
    + destruct (starts_with (lit "PUB ") (cstr data)) eqn:Epub.
      * by apply Hpub.
      * by apply drop_client_hangs_up, still_open_report.
  - destruct (starts_with (lit "PUB ") (cstr data)) eqn:Epub.
    + by apply Hpub.
    + apply Hsub; [done | | done]. by destruct (c_type (client_at i st)).
Qed.

(** X6: the handler serves a connection once.  Whatever the slot holds
    and whatever [read] brings (an error, the end of the stream, a
    subscription, a publish, anything else), when the handler returns the
    slot is free in both tables and the descriptor has been closed, once,
    and no other descriptor has. *)
Theorem handler_hangs_up (env : os_env) (i : nat) (incoming : option bytes)
    (p_mode : persistence_mode_t) (p_duration now : Z) (st : server)
    (p : pollfd) (c : client_t) :
  fds st !! i = Some p → clients st !! i = Some c →
  let st' := handle_client_data env i incoming p_mode p_duration now st in
  pfd_fd <$> fds st' !! i = Some (-1)%Z
  ∧ c_fd <$> clients st' !! i = Some (-1)%Z
  ∧ closes_of (events_since (os st) (os st')) = [pfd_fd p].
Proof. intros Hp Hc. by apply (handler_hung_up env i _ _ _ _ st p c). Qed.

Lemma handler_hangs_up_witness :
  let st' :=
    handle_client_data reliable_os 1 (Some (lit "hello")) PERSIST_ALL 0 100
      two_clients in
  pfd_fd <$> fds st' !! 1 = Some (-1)%Z
  ∧ c_fd <$> clients st' !! 1 = Some (-1)%Z
  ∧ closes_of (events_since (os two_clients) (os st')) = [5%Z].
Proof.
  exact (handler_hangs_up reliable_os 1 (Some (lit "hello")) PERSIST_ALL 0 100
           two_clients (Pollfd 5 POLLIN) (Client 5 CLIENT_TYPE_UNKNOWN [])
           eq_refl eq_refl).
Defined.

(** ** What the handler asks of the operating system *)

Lemma drop_client_os (i : nat) (st : server) :
  os (drop_client i st) = emit (EvClose (pfd_fd (pfd_at i st))) (os st).
Proof. done. Qed.

Lemma disconnect_publisher_os (i : nat) (st : server) :
  os (disconnect_publisher i st)
  = emit (EvClose (pfd_fd (pfd_at i st))) (os st).
Proof. done. Qed.

Lemma sys_read_length (incoming : option bytes) :
  length (cstr (snd (sys_read incoming))) ≤ BUFFER_SIZE - 1.
Proof.
  destruct incoming as [d |]; cbn [sys_read snd]; [| cbn; lia].
  etrans; [apply take_until_length |]. rewrite length_take. lia.
Qed.

(** The frame of a publish the handler has read always fits the frame
    buffer: it is as long as what was read. *)
Lemma frame_of_buffer_fits (buffer : bytes) (k : nat) :
  length buffer ≤ BUFFER_SIZE - 1 →
  strchr buffer LF = Some k →
  (0 < Z.of_nat k - 4)%Z →
  length (frame (take (Z.to_nat (Z.of_nat k - 4)) (drop 4 buffer))
            (drop (S k) buffer)) < BUFFER_SIZE.
Proof.
  intros Hlen Hk Hpos. apply strchr_take_until in Hk as (_ & _ & Hk).
  apply lookup_lt_Some in Hk. rewrite length_frame.
  pose proof (take_until_length
                (take (Z.to_nat (Z.of_nat k - 4)) (drop 4 buffer)) NUL) as H1.
  pose proof (take_until_length (drop (S k) buffer) NUL) as H2.
  rewrite length_take in H1. rewrite length_drop in H1, H2.
  unfold cstr. unfold BUFFER_SIZE in *. lia.
Qed.

(** The events of one call of the handler: its own notices, the events
    of the store on behalf of the descriptor served, those of the
    forwarding loop over the tables as they are at the call, for a frame
    that fits, and the closing of the descriptor served. *)
Lemma handler_grows (P : event → Prop) (env : os_env) (i : nat)
    (incoming : option bytes) (p_mode : persistence_mode_t)
    (p_duration now : Z) (st : server) :
  (∀ r, handler_report r → P (EvReport r)) →
  (∀ e, store_event (Some (pfd_fd (pfd_at i st))) e → P e) →
  P (EvClose (pfd_fd (pfd_at i st))) →
  (∀ pub_topic msg w1,
     length (frame pub_topic msg) < BUFFER_SIZE →
     grows_by P (os st) w1 →
     grows_by P (os st)
       (forward_loop env MAX_CLIENTS 1 (fds st) (clients st) pub_topic msg w1)) →
  grows_by P (os st)
    (os (handle_client_data env i incoming p_mode p_duration now st)).
Proof.
  intros Hreport Hstore Hclose Hloop.
  assert (Hrep : ∀ r w1, handler_report r → grows_by P (os st) w1 →
            grows_by P (os st) (emit (EvReport r) w1)).
  { intros r w1 Hr. by apply grows_by_emit, Hreport. }
  assert (Hdrop : ∀ st0,
            fds st0 = fds st → grows_by P (os st) (os st0) →
            grows_by P (os st) (os (drop_client i st0))).
  { intros st0 E H0. rewrite drop_client_os. unfold pfd_at. rewrite E.
    by apply grows_by_emit. }
  assert (Hpub : ∀ buffer,
            length buffer ≤ BUFFER_SIZE - 1 →
            starts_with (lit "PUB ") buffer = true →
            grows_by P (os st)
              (os (publish_or_reject env i buffer p_mode now st))).
  { intros buffer Hfit E. unfold publish_or_reject. cbv zeta. rewrite E.
    rewrite disconnect_publisher_os.
    destruct (strchr buffer LF) as [k |] eqn:Hk;
      [| by apply grows_by_emit; [| apply Hrep; [| apply grows_by_refl]]].
    destruct (_ && _) eqn:Hc;
      [| by apply grows_by_emit; [| apply Hrep; [| apply grows_by_refl]]].
    apply andb_true_iff in Hc as [Hc _]. apply bool_decide_eq_true in Hc.
    apply grows_by_emit; [done |]. apply Hloop.
    { by apply frame_of_buffer_fits. }
    apply persist_message_grows; [| by apply Hrep; [| apply grows_by_refl]].
    intros e He. apply Hstore. by destruct e. }
  assert (Hother : ∀ buffer st0,
            starts_with (lit "PUB ") buffer = false →
            fds st0 = fds st → grows_by P (os st) (os st0) →
            grows_by P (os st)
              (os (publish_or_reject env i buffer p_mode now st0))).
  { intros buffer st0 E Efds H0. unfold publish_or_reject. cbv zeta.
    rewrite E. destruct (decide _); [| done].
    apply Hdrop; [done |]. by apply Hrep. }
  pose proof (sys_read_length incoming) as Hsize.
  unfold handle_client_data. destruct (sys_read incoming) as [valread data].
  cbn [snd] in Hsize.
  destruct (valread <=? 0)%Z;
    [by apply Hdrop, Hrep; [| | apply grows_by_refl] |].
  unfold identify_client. cbv zeta.
  destruct (decide _).
  - destruct (starts_with (lit "SUB ") (cstr data)) eqn:Esub.
    + pose proof (command_words_differ _ Esub) as Epub.
      destruct (_ && _).
      * apply Hother; [done | done |].
        apply replay_grows; [done |]. by apply Hrep; [| apply grows_by_refl].
      * unfold publish_or_reject. cbv zeta. rewrite Epub.
        destruct (decide _) as [Hbad | _].
        -- exfalso. revert Hbad. unfold client_at, drop_client, set_client_topic,
             set_client_type, set_client_fd, set_pfd_fd, with_os.
           cbn [fds clients os]. rewrite !list_alter_alter_eq.
           rewrite list_lookup_alter_eq. by destruct (clients st !! i).
        -- by apply Hdrop, Hrep; [| | apply grows_by_refl].
    + destruct (starts_with (lit "PUB ") (cstr data)) eqn:Epub.
      * by apply Hpub.
      * by apply Hdrop, Hrep; [| | apply grows_by_refl].
  - destruct (starts_with (lit "PUB ") (cstr data)) eqn:Epub.
    + by apply Hpub.
    + apply Hother; [done | done | apply grows_by_refl].
Qed.

Lemma forward_loop_idle (env : os_env) (n j : nat) (st : server)
    (pub_topic msg : bytes) (w : world) :
  no_subscriber st →
  forward_loop env n j (fds st) (clients st) pub_topic msg w = w.
Proof.
  intros Hinv. revert j. induction n as [| n IH]; intros j; [done |].
  cbn [forward_loop]. unfold forward_to_slot. cbv zeta.
  assert (c_type (default free_client (clients st !! j))
          = CLIENT_TYPE_UNKNOWN) as ->.
  { destruct (clients st !! j) as [c |] eqn:Hc; [| done].
    by eapply Forall_lookup_1 in Hinv. }
  rewrite (bool_decide_eq_false_2
             (CLIENT_TYPE_UNKNOWN = CLIENT_TYPE_SUBSCRIBER)) by done.
  rewrite andb_false_r. apply IH.
Qed.

Lemma reachable_no_subscriber (env : os_env) (p_mode : persistence_mode_t)
    (p_duration : Z) (st : server) :
  reachable env p_mode p_duration st → no_subscriber st.
Proof.
  induction 1 as [server_fd w | pr now st _ IH].
  - unfold no_subscriber, initial_server. cbn [clients].
    constructor; [done |]. by apply Forall_replicate.
  - unfold serve_round. apply serve_clients_no_subscriber.
    destruct (accepted pr); [by apply accept_no_subscriber | done].
Qed.

(** X7: in every state the broker gets into, whatever a client sends, the
    only socket the handler writes to is that client's own (the replay of
    the log to a new subscriber): no connection is ever sent what another
    has published. *)
Theorem nothing_is_ever_forwarded (env : os_env)
    (p_mode : persistence_mode_t) (p_duration : Z) (st : server) (i : nat)
    (incoming : option bytes) (now : Z) :
  reachable env p_mode p_duration st →
  let st' := handle_client_data env i incoming p_mode p_duration now st in
  Forall (λ x, fst x = pfd_fd (pfd_at i st))
    (all_writes (events_since (os st) (os st'))).
Proof.
  intros Hreach. cbv zeta.
  apply reachable_no_subscriber in Hreach.
  pose proof (handler_grows
                (λ e, match e with
                      | EvWrite fd _ => fd = pfd_fd (pfd_at i st)
                      | _ => True
                      end) env i incoming p_mode p_duration now st) as H.
  apply grows_by_events in H.
  - induction H as [| e evs He _ IH]; [done |].
    destruct e; cbn; try done. by constructor.
  - done.
  - intros e He. destruct e; try done. cbn in He. by injection He.
  - done.
  - intros pub_topic msg w1 _ H1. by rewrite forward_loop_idle.
Qed.

Lemma nothing_is_ever_forwarded_witness :
  let st := serve_round reliable_os (PollResult (Some 5%Z) (λ _, None))
              PERSIST_ALL 0 100 (initial_server 3 empty_world) in
  let st' := handle_client_data reliable_os 1 (Some (lit "SUB t"))
               PERSIST_ALL 0 100 st in
  Forall (λ x, fst x = 5%Z) (all_writes (events_since (os st) (os st'))).
Proof.
  exact (nothing_is_ever_forwarded reliable_os PERSIST_ALL 0 _ 1
           (Some (lit "SUB t")) 100
           (reachable_round _ _ _ (PollResult (Some 5%Z) (λ _, None)) 100 _
              (reachable_start _ _ _ 3%Z empty_world))).
Defined.

(** ** A publish, on any tables *)

Lemma all_writes_none (evs : list event) :
  Forall no_write evs → all_writes evs = [].
Proof.
  induction 1 as [| e evs He _ IH]; [done |]. cbn. by destruct e.
Qed.

Lemma store_event_no_write (e : event) : store_event None e → no_write e.
Proof. by destruct e. Qed.

Lemma persist_message_files (env : os_env) (topic message : bytes)
    (p_mode : persistence_mode_t) (now : Z) (e : event) (w : world) :
  files (persist_message env topic message p_mode now (emit e w))
  = files (persist_message env topic message p_mode now w).
Proof.
  unfold persist_message. destruct p_mode; [done | |]; cbv zeta;
    by destruct (fopen_w_ok env (log_path topic)).
Qed.

(** X8: a well-formed publish, on any state of the tables.  Every slot
    from 1 to [MAX_CLIENTS] that is in use, is a subscriber and has the
    topic of the publish is sent the frame [MSG <topic>\n<message>], in slot
    order, and nothing else is written to any socket, whatever the
    persistence mode and whether or not the log can be opened or a write
    fails; the files afterwards are those [persist_message] leaves. *)
Theorem publish_fans_out (env : os_env) (i : nat) (d : bytes)
    (p_mode : persistence_mode_t) (p_duration now : Z) (st : server) :
  let buffer := cstr (take (BUFFER_SIZE - 1) d) in
  starts_with (lit "PUB ") buffer = true →
  LF ∈ buffer →
  let topic := take_until LF (drop 4 buffer) in
  let msg := drop (5 + length topic) buffer in
  0 < length topic < MAX_TOPIC_LEN →
  let st' := handle_client_data env i (Some d) p_mode p_duration now st in
  all_writes (events_since (os st) (os st'))
  = map (λ j, (c_fd (client_at j st), frame topic msg))
      (List.filter (subscribed_to (fds st) (clients st) topic)
         (seq 1 MAX_CLIENTS))
  ∧ files (os st') = files (persist_message env topic msg p_mode now (os st)).
Proof.
  intros buffer Hpub Hnl topic msg Hlen st'.
  pose proof (frame_fits_read_buffer d Hpub Hnl) as Hfit.
  cbv zeta in Hfit. fold buffer topic msg in Hfit.
  assert (Hst' : st' = publish_or_reject env i buffer p_mode now st).
  { subst st'. unfold handle_client_data, sys_read.
    rewrite (read_positive (lit "PUB ")) by done.
    fold buffer. by rewrite identify_publisher. }
  rewrite Hst'.
  rewrite (publish_well_formed env i buffer p_mode now st Hpub Hnl Hlen).
  fold topic msg. rewrite disconnect_publisher_os.
  unfold forward_to_subscribers, with_os. cbn [os fds clients].
  assert (Hgrow : grows_by no_write (os st)
            (persist_message env topic msg p_mode now
               (emit (EvReport (RReceived topic (pfd_fd (pfd_at i st))))
                  (os st)))).
  { apply persist_message_grows; [apply store_event_no_write |].
    by apply grows_by_emit; [| apply grows_by_refl]. }
  split;
    [| unfold emit at 1; cbn [files]; rewrite forward_loop_events;
       apply persist_message_files].
  set (w2 := persist_message _ _ _ _ _ _) in *. clearbody w2.
  destruct Hgrow as (evs & Ht & Hevs).
  pose proof (fan_out_delivers env topic msg
                (Server (fds st) (clients st) w2) Hfit) as Hfan.
  unfold forward_to_subscribers, with_os, client_at in Hfan.
  cbn [os fds clients] in Hfan. unfold client_at. rewrite <- Hfan.
  rewrite forward_loop_events. unfold events_since, emit. cbn [trace].
  rewrite Ht, <- !app_assoc, !drop_app_length, !all_writes_app.
  rewrite (all_writes_none evs Hevs), app_nil_r, app_nil_l.
  by rewrite (app_assoc (trace (os st)) evs), drop_app_length.
Qed.

Lemma publish_fans_out_witness :
  let st' :=
    handle_client_data reliable_os 2 (Some (lit "PUB t" ++ LF :: lit "hi"))
      PERSIST_ALL 0 100 one_subscriber in
  all_writes (events_since (os one_subscriber) (os st'))
  = [(5%Z, lit "MSG t" ++ LF :: lit "hi")]
  ∧ files (os st')
    = files (persist_message reliable_os (lit "t") (lit "hi") PERSIST_ALL 100
               (os one_subscriber)).
Proof.
  assert (Hnl : LF ∈ cstr (take (BUFFER_SIZE - 1)
                             (lit "PUB t" ++ LF :: lit "hi"))).
  { apply list_elem_of_lookup. exists 5. reflexivity. }
  assert (Hlen : 0 < 1 < MAX_TOPIC_LEN) by (unfold MAX_TOPIC_LEN; lia).
  exact (publish_fans_out reliable_os 2 (lit "PUB t" ++ LF :: lit "hi")
           PERSIST_ALL 0 100 one_subscriber eq_refl Hnl Hlen).
Defined.

(** ** What a publish stores and sends *)











(** ** Persistence off *)

Lemma accept_keeps_files (new_socket : Z) (st : server) :
  files (os (handle_new_connection new_socket st)) = files (os st).
Proof.
  unfold handle_new_connection. destruct (new_socket <? 0)%Z; [done |].
  cbv zeta. by destruct (first_free_slot _ _ _).
Qed.

(** X9: with persistence off the broker leaves the log directory alone:
    a round of the loop of [main] changes no file, whatever connects and
    whatever the clients send. *)
Theorem none_mode_round_keeps_files (env : os_env) (pr : poll_result)
    (p_duration now : Z) (st : server) :
  files (os (serve_round env pr PERSIST_NONE p_duration now st))
  = files (os st).
Proof.
  unfold serve_round.
  apply (serve_clients_keeps env (λ s, files (os s) = files (os st))).
  - intros k incoming st0 _ H0.
    by rewrite none_mode_handler_keeps_files.
  - destruct (accepted pr); [apply accept_keeps_files | done].
Qed.

(** ** The store and the descriptors *)

(** X10: the persistence store keeps to its own business.  Appending a
    message writes to no socket; a replay writes to the descriptor it was
    given and to no other; neither closes a descriptor or changes its
    mode, whatever the mode of persistence, the state of the log and the
    failures met. *)
Theorem store_keeps_to_its_descriptor (env : os_env) (fd : Z)
    (topic message : bytes) (p_mode : persistence_mode_t)
    (p_duration now : Z) (w : world) :
  let appended := events_since w (persist_message env topic message p_mode now w) in
  let replayed :=
    events_since w
      (send_persisted_messages env fd topic p_mode p_duration now w) in
  all_writes appended = []
  ∧ Forall (λ x, fst x = fd) (all_writes replayed)
  ∧ Forall keeps_descriptors (appended ++ replayed).
Proof.
  cbv zeta.
  pose proof (grows_by_events _ _ _
                (persist_message_grows (store_event None) env topic message
                   p_mode now w w (λ e H, H) (grows_by_refl _ w))) as Ha.
  pose proof (grows_by_events _ _ _
                (replay_grows (store_event (Some fd)) env fd topic p_mode
                   p_duration now w w (λ e H, H) (grows_by_refl _ w))) as Hr.
  split.
  { apply all_writes_none.
    eapply Forall_impl; [exact Ha | apply store_event_no_write]. }
  split.
  - induction Hr as [| e evs He _ IH]; [done |].
    destruct e; cbn; try done. constructor; [| done]. cbn in He.
    by injection He.
  - apply Forall_app. split.
    + eapply Forall_impl; [exact Ha | apply store_event_keeps_descriptors].
    + eapply Forall_impl; [exact Hr | apply store_event_keeps_descriptors].
Qed.

(** ** The store and the files *)

Lemma files_differ_in_refl (paths : list bytes) (w : world) :
  files_differ_in paths w w.
Proof. by intros path _. Qed.

Lemma files_differ_in_emit (paths : list bytes) (e : event) (w w1 : world) :
  files_differ_in paths w w1 → files_differ_in paths w (emit e w1).
Proof. done. Qed.

Lemma files_differ_in_insert (paths : list bytes) (path data : bytes)
    (w w1 : world) :
  path ∈ paths →
  files_differ_in paths w w1 →
  files_differ_in paths w (set_files (<[path := data]> (files w1)) w1).
Proof.
  intros Hin H q Hq. cbn [set_files files].
  rewrite lookup_insert_ne by (intros ->; contradiction). by apply H.
Qed.

Lemma files_differ_in_sys_write (paths : list bytes) (env : os_env)
    (r : report) (fd : Z) (data : bytes) (w w1 : world) :
  files_differ_in paths w w1 →
  files_differ_in paths w (sys_write env r fd data w1).
Proof. intros H. unfold sys_write. cbv zeta. by destruct (write_ok env _ _). Qed.

Lemma files_differ_in_fold_left {A} (paths : list bytes)
    (f : world → A → world) (l : list A) (w w1 : world) :
  (∀ w2 a, files_differ_in paths w w2 → files_differ_in paths w (f w2 a)) →
  files_differ_in paths w w1 → files_differ_in paths w (fold_left f l w1).
Proof.
  intros Hf. revert w1. induction l as [| a l IH]; intros w1 H; [done |].
  cbn [fold_left]. by apply IH, Hf.
Qed.

Lemma persist_message_own_file (env : os_env) (topic message : bytes)
    (p_mode : persistence_mode_t) (now : Z) (w : world) :
  files_differ_in [log_path topic] w
    (persist_message env topic message p_mode now w).
Proof.
  unfold persist_message. destruct p_mode; [done | |]; cbv zeta;
    (destruct (fopen_w_ok env (log_path topic)); [| done]);
    unfold file_append; (apply files_differ_in_insert;
                         [apply list_elem_of_here | done]).
Qed.

Lemma replay_own_files (env : os_env) (fd : Z) (topic : bytes)
    (p_mode : persistence_mode_t) (p_duration now : Z) (w : world) :
  files_differ_in [log_path topic; temp_path topic] w
    (send_persisted_messages env fd topic p_mode p_duration now w).
Proof.
  assert (Htmp : temp_path topic ∈ [log_path topic; temp_path topic]).
  { apply list_elem_of_further, list_elem_of_here. }
  unfold send_persisted_messages. destruct p_mode; [done | |]; cbv zeta;
    (destruct (files w !! log_path topic); [| done]).
  - apply files_differ_in_fold_left; [| done].
    intros w2 line H2. by apply files_differ_in_sys_write.
  - destruct (fopen_w_ok env (temp_path topic)); [| done].
    match goal with
    | |- context [fold_left ?f ?l ?w0] =>
        assert (Hloop : files_differ_in [log_path topic; temp_path topic] w
                          (fold_left f l w0))
    end.
    { apply files_differ_in_fold_left;
        [| by apply files_differ_in_insert].
      intros w2 line H2. unfold replay_timed_line.
      destruct (parse_entry (cstr line)) as [msg_time msg_content].
      destruct (_ <=? _)%Z; [| done]. cbv zeta.
      unfold file_append. apply files_differ_in_insert; [done |].
      by apply files_differ_in_sys_write. }
    destruct (rename_ok env _ _); [| done].
    intros q Hq. cbn [emit set_files files].
    apply not_elem_of_cons in Hq as [Hq1 Hq2].
    apply not_elem_of_cons in Hq2 as [Hq2 _].
    rewrite lookup_insert_ne, lookup_delete_ne by done.
    apply Hloop. rewrite !not_elem_of_cons.
    split; [done |]. split; [done |]. apply not_elem_of_nil.
Qed.

Lemma log_path_short (topic : bytes) :
  length (cstr topic) < MAX_TOPIC_LEN →
  log_path topic = LOG_DIR ++ lit "/" ++ cstr topic ++ lit ".log"
  ∧ temp_path topic = LOG_DIR ++ lit "/" ++ cstr topic ++ lit ".log.tmp".
Proof.
  intros Hlen. unfold log_path, temp_path. unfold MAX_TOPIC_LEN in Hlen.
  split; apply take_ge; rewrite !length_app;
    change (length LOG_DIR) with 4; change (length (lit "/")) with 1.
  - change (length (lit ".log")) with 4. lia.
  - change (length (lit ".log.tmp")) with 8. lia.
Qed.

(** The paths of two topics of the broker, which have fewer than
    [MAX_TOPIC_LEN] characters: the logs differ when the topics do, and
    the temporary file of one is never the log of the other. *)
Lemma paths_of_topics (topic other : bytes) :
  length (cstr topic) < MAX_TOPIC_LEN →
  length (cstr other) < MAX_TOPIC_LEN →
  (log_path topic = log_path other → cstr topic = cstr other)
  ∧ temp_path topic ≠ log_path other.
Proof.
  intros H1 H2.
  destruct (log_path_short topic H1) as [-> ->].
  destruct (log_path_short other H2) as [-> _].
  split.
  - intros E. apply app_inv_head, app_inv_head in E.
    by apply app_inv_tail in E.
  - intros E. apply app_inv_head, app_inv_head in E.
    apply (f_equal last) in E.
    change (lit ".log.tmp") with (lit ".log.tm" ++ [("p")%char]) in E.
    change (lit ".log") with (lit ".lo" ++ [("g")%char]) in E.
    rewrite !app_assoc, !last_snoc in E. discriminate.
Qed.

(** X11: topics do not interfere in the store.  For topics as the broker
    accepts them (fewer than [MAX_TOPIC_LEN] characters) that hold no [/],
    so that their logs are plain names in the log directory, and in a
    directory where different names are different files: appending to one
    topic or replaying it, in any mode and whatever fails, leaves the log
    of every other topic as it was, present or absent.  A topic with a [/]
    in it can name the log of another by a second path ([./weather] for
    [weather]), which the table of files here, keyed by path, does not
    see: hence the condition. *)
Theorem topics_are_isolated (env : os_env) (fd : Z) (topic other : bytes)
    (message : bytes) (p_mode : persistence_mode_t) (p_duration now : Z)
    (w : world) :
  length (cstr topic) < MAX_TOPIC_LEN →
  length (cstr other) < MAX_TOPIC_LEN →
  "/"%char ∉ cstr topic →
  "/"%char ∉ cstr other →
  cstr topic ≠ cstr other →
  files (persist_message env topic message p_mode now w) !! log_path other
  = files w !! log_path other
  ∧ files (send_persisted_messages env fd topic p_mode p_duration now w)
      !! log_path other
    = files w !! log_path other.
Proof.
  intros H1 H2 _ _ Hne.
  destruct (paths_of_topics topic other H1 H2) as [Hlog Htmp].
  assert (Hl : log_path other ≠ log_path topic).
  { intros E. by apply Hne, Hlog. }
  split.
  - apply persist_message_own_file.
    rewrite not_elem_of_cons. split; [done | apply not_elem_of_nil].
  - apply replay_own_files. rewrite !not_elem_of_cons.
    split; [done |]. split; [done | apply not_elem_of_nil].
Qed.

Lemma topics_are_isolated_witness :
  files (persist_message reliable_os (lit "news") (lit "hello") PERSIST_TIMED
           100 weather_world) !! log_path (lit "weather")
  = files weather_world !! log_path (lit "weather")
  ∧ files (send_persisted_messages reliable_os 5 (lit "news") PERSIST_TIMED
             60 200 weather_world) !! log_path (lit "weather")
    = files weather_world !! log_path (lit "weather").
Proof.
  apply (topics_are_isolated reliable_os 5 (lit "news") (lit "weather")
           (lit "hello") PERSIST_TIMED 60 200 weather_world).
  - decide_now.
  - decide_now.
  - decide_now.
  - decide_now.
  - decide_now.
Defined.

(** ** Replaying under [PERSIST_ALL] *)

Lemma all_writes_lines (env : os_env) (fd : Z) (lines : list bytes) :
  all_writes (flat_map (λ l, write_events env fd (cstr l)) lines)
  = map (λ l, (fd, cstr l)) lines.
Proof.
  induction lines as [| l lines IH]; [done |].
  cbn [flat_map map]. rewrite all_writes_app, IH. unfold write_events.
  by destruct (write_ok env fd (cstr l)).
Qed.

Lemma all_replay_writes (env : os_env) (fd : Z) (topic : bytes)
    (p_duration now : Z) (w : world) :
  all_writes
    (events_since w
       (send_persisted_messages env fd topic PERSIST_ALL p_duration now w))
  = map (λ l, (fd, cstr l)) (file_lines (log_of topic w)).
Proof.
  rewrite all_replay_spec, events_since_app.
  unfold all_replay_events, log_of.
  destruct (files w !! log_path topic) as [content |]; [| done].
  cbn [default]. apply all_writes_lines.
Qed.

Lemma chunked_sizes (ls : list bytes) :
  chunked ls → Forall (λ l, l ≠ [] ∧ length l ≤ BUFFER_SIZE - 1) ls.
Proof.
  induction 1 as [| l Hne Hnl Hlen | l ls Hne Hcl _ IH].
  - constructor.
  - constructor; [done | constructor].
  - constructor; [| done]. split; [done |].
    destruct Hcl as [[_ H] | [_ H]]; lia.
Qed.

Lemma map_cstr_lines (ls : list bytes) :
  NUL ∉ concat ls → map cstr ls = ls.
Proof.
  induction ls as [| l ls IH]; [done |]. cbn [concat map].
  rewrite not_elem_of_app. intros [H1 H2]. by rewrite cstr_id, IH.
Qed.

Lemma replayed_bytes (fd : Z) (content : bytes) :
  NUL ∉ content →
  concat (map snd (map (λ l, (fd, cstr l)) (file_lines content))) = content.
Proof.
  intros Hnul. destruct (file_lines_chunked content) as [_ Hcat].
  rewrite map_map. cbn [snd]. rewrite map_cstr_lines by by rewrite Hcat.
  done.
Qed.

(** X12: a replay under [PERSIST_ALL] of a log that exists.  The log is
    sent to the descriptor in order, in pieces that are its lines, cut
    after 1023 bytes where a line is longer, and each cut short at its
    first NUL byte if it has one; for a log without NUL bytes the bytes
    sent are, put together, exactly the log.  The files are left as they
    were. *)
Theorem all_replay_sends_the_log (env : os_env) (fd : Z) (topic : bytes)
    (p_duration now : Z) (w : world) (content : bytes) :
  files w !! log_path topic = Some content →
  let w' :=
    send_persisted_messages env fd topic PERSIST_ALL p_duration now w in
  let sent := all_writes (events_since w w') in
  sent = map (λ l, (fd, cstr l)) (file_lines content)
  ∧ concat (file_lines content) = content
  ∧ Forall (λ l, l ≠ [] ∧ length l ≤ BUFFER_SIZE - 1) (file_lines content)
  ∧ (NUL ∉ content → concat (map snd sent) = content)
  ∧ files w' = files w.
Proof.
  intros Hlog. cbv zeta. rewrite all_replay_writes. unfold log_of.
  rewrite Hlog. cbn [default].
  destruct (file_lines_chunked content) as [Hch Hcat].
  split; [done |]. split; [done |]. split; [by apply chunked_sizes |].
  split; [apply replayed_bytes |]. by rewrite all_replay_spec.
Qed.

Lemma all_replay_sends_the_log_witness :
  let w := World {[ log_path (lit "t") := lit "one" ++ LF :: lit "two" ]} [] in
  let w' := send_persisted_messages reliable_os 5 (lit "t") PERSIST_ALL 0 100 w in
  all_writes (events_since w w') = [(5%Z, lit "one" ++ [LF]); (5%Z, lit "two")]
  ∧ files w' = files w.
Proof.
  cbv zeta.
  destruct (all_replay_sends_the_log reliable_os 5 (lit "t") 0 100
              (World {[ log_path (lit "t") := lit "one" ++ LF :: lit "two" ]} [])
              (lit "one" ++ LF :: lit "two"))
    as (H1 & _ & _ & _ & H2).
  - vm_compute. reflexivity.
  - split; [| exact H2]. rewrite H1. vm_compute. reflexivity.
Defined.

(** X13: publishing and then subscribing, under [PERSIST_ALL].  When the
    log of the topic can be opened for appending and holds no NUL byte,
    the replay that follows a sequence of publishes sends, put together,
    what the log held before and then every message published, in publish
    order, with nothing added, nothing lost and nothing between them. *)
Theorem all_publish_then_replay (env : os_env) (fd : Z) (topic : bytes)
    (pubs : list (Z * bytes)) (p_duration now : Z) (w : world) :
  fopen_w_ok env (log_path topic) = true →
  NUL ∉ log_of topic w →
  let w1 := publish_sequence env topic PERSIST_ALL pubs w in
  let w2 :=
    send_persisted_messages env fd topic PERSIST_ALL p_duration now w1 in
  concat (map snd (all_writes (events_since w1 w2)))
  = log_of topic w ++ concat (map (λ p, cstr (snd p)) pubs).
Proof.
  intros Hok Hnul. cbv zeta. rewrite all_replay_writes.
  rewrite publish_sequence_log by done. apply replayed_bytes.
  rewrite not_elem_of_app. split; [done |].
  intros Hin. apply list_elem_of_In, in_concat in Hin as (l & Hl & Hx).
  apply in_map_iff in Hl as (p & <- & _).
  apply list_elem_of_In in Hx. by apply cstr_free in Hx.
Qed.

Lemma all_publish_then_replay_witness :
  let w1 := publish_sequence reliable_os (lit "t") PERSIST_ALL
              [(100%Z, lit "a" ++ [LF]); (101%Z, lit "b")] empty_world in
  let w2 := send_persisted_messages reliable_os 5 (lit "t") PERSIST_ALL 0 200 w1 in
  concat (map snd (all_writes (events_since w1 w2)))
  = lit "a" ++ LF :: lit "b".
Proof.
  cbv zeta.
  rewrite (all_publish_then_replay reliable_os 5 (lit "t")
             [(100%Z, lit "a" ++ [LF]); (101%Z, lit "b")] 0 200 empty_world).
  - vm_compute. reflexivity.
  - reflexivity.
  - decide_now.
Defined.

(** ** Publishing and replaying under [PERSIST_TIMED] *)

Lemma persist_timed_log (env : os_env) (topic message : bytes) (now : Z)
    (w : world) :
  fopen_w_ok env (log_path topic) = true →
  files (persist_message env topic message PERSIST_TIMED now w)
    !! log_path topic
  = Some (log_of topic w ++ entry_line now message).
Proof.
  intros Hok. unfold persist_message, log_of. rewrite Hok.
  unfold file_append, set_files, emit. cbn [files].
  by rewrite lookup_insert_eq.
Qed.

Lemma timed_sequence_log (env : os_env) (topic : bytes) (p : Z * bytes)
    (pubs : list (Z * bytes)) (w : world) :
  fopen_w_ok env (log_path topic) = true →
  files (publish_sequence env topic PERSIST_TIMED (p :: pubs) w)
    !! log_path topic
  = Some (log_of topic w ++ concat (map row (p :: pubs))).
Proof.
  intros Hok. revert p w. induction pubs as [| q pubs IH]; intros p w.
  - cbn. rewrite app_nil_r. by apply persist_timed_log.
  - change (publish_sequence env topic PERSIST_TIMED (p :: q :: pubs) w)
      with (publish_sequence env topic PERSIST_TIMED (q :: pubs)
              (persist_message env topic p.2 PERSIST_TIMED p.1 w)).
    rewrite IH. unfold log_of at 1. rewrite persist_timed_log by done.
    cbn [default map concat id]. by rewrite <- app_assoc.
Qed.

Lemma loggable_row (p : Z * bytes) :
  loggable p →
  row p ≠ [] ∧ closed (BUFFER_SIZE - 1) (row p)
  ∧ parse_entry (cstr (row p)) = p.
Proof.
  destruct p as [t m]. unfold loggable, row, entry_line. cbn [fst snd].
  intros (Ht & Hnul & (body & Hm & Hbody) & Hlen).
  destruct (fmt_ld_chars t Ht) as (Hne & Hlf & Hz).
  pose proof (length_fmt_ld t Ht) as Hld.
  rewrite (cstr_id m) by done.
  split; [by destruct (fmt_ld t) |]. split.
  - left. split.
    + exists (fmt_ld t ++ SP :: body). rewrite Hm.
      split; [by rewrite <- app_assoc |].
      rewrite not_elem_of_app, not_elem_of_cons. by repeat split.
    + rewrite length_app. cbn [length]. unfold BUFFER_SIZE. lia.
  - rewrite cstr_id.
    + rewrite <- (cstr_id m) at 1 by done.
      change (fmt_ld t ++ SP :: cstr m) with (entry_line t m).
      rewrite parse_entry_line by done. by rewrite cstr_id.
    + rewrite not_elem_of_app, not_elem_of_cons. by repeat split.
Qed.

Lemma loggable_rows (pubs : list (Z * bytes)) :
  Forall loggable pubs →
  chunked (map row pubs) ∧ entries_of (map row pubs) = pubs.
Proof.
  induction 1 as [| p pubs Hp _ [IH1 IH2]]; [by split; [constructor |] |].
  destruct (loggable_row p Hp) as (Hne & Hcl & Hparse).
  split; [by constructor |].
  unfold entries_of in *. cbn [map]. by rewrite Hparse, IH2.
Qed.

(** X14: publishing and then subscribing, under [PERSIST_TIMED], on a
    topic that has no log yet.  Each publish carries the clock reading at
    its time; the messages are lines of at most 1000 bytes without NUL.
    The replay at clock reading [now] sends the subscriber exactly the
    messages published at most [p_duration] seconds before, whole and in
    publish order, and not the older ones; after it the log holds the
    messages sent, each with its timestamp, or all of them if the
    [rename] fails. *)
Theorem timed_publish_then_replay (env : os_env) (fd : Z) (topic : bytes)
    (pubs : list (Z * bytes)) (p_duration now : Z) (w : world) :
  length (cstr topic) < MAX_TOPIC_LEN →
  fopen_w_ok env (log_path topic) = true →
  fopen_w_ok env (temp_path topic) = true →
  files w !! log_path topic = None →
  pubs ≠ [] →
  Forall loggable pubs →
  let w1 := publish_sequence env topic PERSIST_TIMED pubs w in
  let w2 :=
    send_persisted_messages env fd topic PERSIST_TIMED p_duration now w1 in
  let kept := List.filter (fresh now p_duration) pubs in
  all_writes (events_since w1 w2) = map (λ p, (fd, snd p)) kept
  ∧ files w2 !! log_path topic
    = Some (concat (map row
                      (if rename_ok env (temp_path topic) (log_path topic)
                       then kept else pubs))).
Proof.
  intros Hlen Hok Htmp Hnew Hpubs Hgood. cbv zeta.
  destruct pubs as [| p pubs]; [done |].
  pose proof (timed_sequence_log env topic p pubs w Hok) as Hlog.
  unfold log_of in Hlog. rewrite Hnew in Hlog. cbn [default app] in Hlog.
  destruct (loggable_rows (p :: pubs) Hgood) as [Hch Hent].
  pose proof (timed_replay_outcome env fd topic p_duration now _ _ Hlog Htmp)
    as [Hsent Hfiles].
  cbv zeta in Hsent, Hfiles. unfold kept_entries in Hsent, Hfiles.
  pose proof (paths_differ topic Hlen) as Hdiff.
  destruct (decide (temp_path topic = log_path topic)) as [E | _];
    [by symmetry in E |].
  rewrite (file_lines_concat _ Hch), Hent in Hsent, Hfiles.
  split; [exact Hsent |]. rewrite Hfiles.
  by destruct (rename_ok env _ _).
Qed.

Lemma timed_publish_then_replay_witness :
  let pubs := [(100%Z, lit "old" ++ [LF]); (195%Z, lit "new" ++ [LF])] in
  let w1 := publish_sequence reliable_os (lit "t") PERSIST_TIMED pubs
              empty_world in
  let w2 := send_persisted_messages reliable_os 5 (lit "t") PERSIST_TIMED 60
              200 w1 in
  all_writes (events_since w1 w2) = [(5%Z, lit "new" ++ [LF])]
  ∧ files w2 !! log_path (lit "t") = Some (lit "195 new" ++ [LF]).
Proof.
  cbv zeta.
  assert (Hgood : Forall loggable
            [(100%Z, lit "old" ++ [LF]); (195%Z, lit "new" ++ [LF])]).
  { assert (Hone : ∀ t body,
              in_long t → NUL ∉ body → LF ∉ body → length body < 1000 →
              loggable (t, body ++ [LF])).
    { intros t body Ht Hnul Hlf Hlen. unfold loggable. cbn [fst snd].
      split; [done |]. split.
      - rewrite not_elem_of_app, not_elem_of_cons.
        split; [done |]. split; [done | apply not_elem_of_nil].
      - split; [by exists body |]. rewrite length_app. cbn [length]. lia. }
    repeat constructor;
      (apply Hone;
       [unfold in_long, LONG_MIN, LONG_MAX; lia | decide_now | decide_now
       | cbn [length lit list_ascii_of_string]; lia]). }
  destruct (timed_publish_then_replay reliable_os 5 (lit "t")
              [(100%Z, lit "old" ++ [LF]); (195%Z, lit "new" ++ [LF])]
              60 200 empty_world) as [H1 H2];
    [decide_now | reflexivity | reflexivity | reflexivity | discriminate
    | exact Hgood |].
  split; [rewrite H1 | rewrite H2]; vm_compute; reflexivity.
Defined.

(** ** A timed replay, entry by entry *)





(** X15: a timed replay that cannot finish leaves the log as it was.
    When the log is missing, or the temporary file cannot be opened,
    nothing is sent to the subscriber and no file changes.  When the final
    [rename] fails, the log is as before; the messages have been sent all
    the same, and the temporary file stays behind with the entries that
    were kept. *)
Theorem failed_replay_keeps_log (env : os_env) (fd : Z) (topic : bytes)
    (p_duration now : Z) (w : world) :
  log_path topic ≠ temp_path topic →
  let path := log_path topic in
  let tmp := temp_path topic in
  let w' :=
    send_persisted_messages env fd topic PERSIST_TIMED p_duration now w in
  (files w !! path = None ∨ fopen_w_ok env tmp = false →
   files w' = files w ∧ all_writes (events_since w w') = [])
  ∧ (rename_ok env tmp path = false →
     files w' !! path = files w !! path
     ∧ ∀ content,
         files w !! path = Some content → fopen_w_ok env tmp = true →
         let kept :=
           List.filter (fresh now p_duration)
             (entries_of (file_lines content)) in
         all_writes (events_since w w') = map (λ e, (fd, snd e)) kept
         ∧ files w' !! tmp = Some (concat (map row kept))).
Proof.
  intros Hdiff. cbv zeta.
  assert (Hfirst : files w !! log_path topic = None
                   ∨ fopen_w_ok env (temp_path topic) = false →
            files (send_persisted_messages env fd topic PERSIST_TIMED
                     p_duration now w) = files w
            ∧ all_writes
                (events_since w
                   (send_persisted_messages env fd topic PERSIST_TIMED
                      p_duration now w)) = []).
  { intros Hcase. unfold send_persisted_messages. cbv zeta.
    destruct (files w !! log_path topic) as [content |] eqn:Hlog.
    - destruct Hcase as [? | Hno]; [done |]. rewrite Hno. cbv iota beta.
      split; [done |]. by rewrite events_since_emit3.
    - split; [done |]. by rewrite events_since_emit. }
  split; [exact Hfirst |]. intros Hren.
  destruct (files w !! log_path topic) as [content |] eqn:Hlog.
  - destruct (fopen_w_ok env (temp_path topic)) eqn:Htmp.
    + pose proof (timed_replay_spec env fd topic p_duration now w content
                    Hlog Htmp) as Hspec.
      cbv zeta in Hspec. rewrite Hren in Hspec.
      destruct (decide (temp_path topic = log_path topic)) as [E | _];
        [by symmetry in E |].
      rewrite Hspec. cbn [files].
      split; [by rewrite lookup_insert_ne, Hlog by done |].
      intros c [= <-] _. split; [| by rewrite lookup_insert_eq].
      unfold events_since. cbn [trace].
      rewrite <- !app_assoc, drop_app_length, !all_writes_app.
      rewrite all_writes_write_events. cbn. by rewrite app_nil_r.
    + destruct Hfirst as [-> _]; [by right |].
      split; [by rewrite Hlog | done].
  - destruct Hfirst as [-> _]; [by left |].
    split; [by rewrite Hlog | done].
Qed.

Lemma failed_replay_keeps_log_witness :
  files (send_persisted_messages
           (OsEnv (λ _, true) (λ _ _, false) (λ _ _, true)) 5 (lit "weather")
           PERSIST_TIMED 60 200 weather_world) !! log_path (lit "weather")
  = files weather_world !! log_path (lit "weather").
Proof.
  destruct (failed_replay_keeps_log
              (OsEnv (λ _, true) (λ _ _, false) (λ _ _, true)) 5
              (lit "weather") 60 200 weather_world) as [_ H];
    [decide_now |].
  destruct (H eq_refl) as [H1 _]. exact H1.
Defined.

(** ** A round of the loop and the readable connections *)

Lemma grows_any_trans (w1 w2 w3 : world) :
  grows_by (λ _, True) w1 w2 → grows_by (λ _, True) w2 w3 →
  grows_by (λ _, True) w1 w3.
Proof.
  intros (e1 & H1 & _) (e2 & H2 & _). exists (e1 ++ e2).
  rewrite H2, H1, app_assoc. split; [done |]. by apply Forall_true.
Qed.

Lemma handler_grows_any (env : os_env) (i : nat) (incoming : option bytes)
    (p_mode : persistence_mode_t) (p_duration now : Z) (st : server) :
  grows_by (λ _, True) (os st)
    (os (handle_client_data env i incoming p_mode p_duration now st)).
Proof.
  apply handler_grows; [done | done | done |].
  intros pub_topic msg w1 _ H. eapply grows_any_trans; [exact H |].
  eapply grows_by_mono; [| apply forward_loop_grows, grows_by_refl]. done.
Qed.

Lemma accept_grows_any (new_socket : Z) (st : server) :
  grows_by (λ _, True) (os st) (os (handle_new_connection new_socket st)).
Proof.
  unfold handle_new_connection. destruct (new_socket <? 0)%Z.
  - by apply grows_by_emit; [| apply grows_by_refl].
  - cbv zeta. destruct (first_free_slot _ _ _);
      unfold set_client_fd, set_pfd_events, set_pfd_fd, with_os;
      cbn [os]; by repeat apply grows_by_emit; try apply grows_by_refl.
Qed.

Lemma closed_since_grows (fd : Z) (w w1 w2 : world) :
  closed_since fd w w1 → grows_by (λ _, True) w1 w2 → closed_since fd w w2.
Proof.
  intros (e1 & H1 & Hin) (e2 & H2 & _). exists (e1 ++ e2).
  rewrite H2, H1, app_assoc. split; [done |].
  rewrite closes_of_app, elem_of_app. by left.
Qed.

Lemma serve_clients_grows_any (env : os_env) (n i : nat)
    (revents : nat → option (option bytes)) (p_mode : persistence_mode_t)
    (p_duration now : Z) (st : server) :
  grows_by (λ _, True) (os st)
    (os (serve_clients env n i revents p_mode p_duration now st)).
Proof.
  apply (serve_clients_keeps env (λ s, grows_by (λ _, True) (os st) (os s)));
    [| apply grows_by_refl].
  intros k incoming st0 _ H0. eapply grows_any_trans; [exact H0 |].
  apply handler_grows_any.
Qed.

Lemma serve_clients_skips (env : os_env) (n j i : nat)
    (revents : nat → option (option bytes)) (p_mode : persistence_mode_t)
    (p_duration now : Z) (st : server) :
  i < j →
  let st' := serve_clients env n j revents p_mode p_duration now st in
  fds st' !! i = fds st !! i ∧ clients st' !! i = clients st !! i.
Proof.
  intros Hij. cbv zeta.
  apply (serve_clients_keeps env
           (λ s, fds s !! i = fds st !! i ∧ clients s !! i = clients st !! i));
    [| done].
  intros k incoming st0 Hk [H1 H2].
  destruct (handler_same_elsewhere env k incoming p_mode p_duration now st0)
    as (_ & _ & Hsame).
  destruct (Hsame i) as [E1 E2]; [lia |]. by rewrite E1, E2.
Qed.

Lemma serve_clients_frees (env : os_env) (n j i : nat)
    (revents : nat → option (option bytes)) (p_mode : persistence_mode_t)
    (p_duration now : Z) (st : server) (p : pollfd) (c : client_t)
    (incoming : option bytes) :
  j ≤ i < j + n →
  fds st !! i = Some p → pfd_fd p ≠ (-1)%Z → clients st !! i = Some c →
  revents i = Some incoming →
  let st' := serve_clients env n j revents p_mode p_duration now st in
  freed i st' ∧ closed_since (pfd_fd p) (os st) (os st').
Proof.
  cbv zeta. revert j st.
  induction n as [| n IH]; intros j st Hji Hp Hfd Hc Hrev; [lia |].
  cbn [serve_clients]. destruct (decide (j = i)) as [-> | Hne].
  - rewrite Hrev, (pfd_at_lookup _ _ _ Hp).
    destruct (decide (pfd_fd p ≠ (-1)%Z)) as [_ | ?]; [| done].
    destruct (handler_hung_up env i incoming p_mode p_duration now st p c
                Hp Hc) as (H1 & H2 & H3).
    pose proof (handler_grows_any env i incoming p_mode p_duration now st)
      as (evs & Ht & _).
    set (st1 := handle_client_data env i incoming p_mode p_duration now st)
      in *.
    destruct (serve_clients_skips env n (S i) i revents p_mode p_duration
                now st1) as [E1 E2]; [lia |].
    split; [unfold freed; by rewrite E1, E2 |].
    apply (closed_since_grows _ _ (os st1));
      [| apply serve_clients_grows_any].
    exists evs. split; [done |]. unfold events_since in H3.
    rewrite Ht, drop_app_length in H3. rewrite H3. apply list_elem_of_here.
  - set (st1 := match revents j with
                | Some incoming0 =>
                    if decide (pfd_fd (pfd_at j st) ≠ (-1)%Z)
                    then handle_client_data env j incoming0 p_mode p_duration
                           now st
                    else st
                | None => st
                end).
    assert (Hsame : fds st1 !! i = fds st !! i
                    ∧ clients st1 !! i = clients st !! i
                    ∧ grows_by (λ _, True) (os st) (os st1)).
    { subst st1. destruct (revents j) as [incoming0 |];
        [| by split; [| split; [| apply grows_by_refl]]].
      destruct (decide _); [| by split; [| split; [| apply grows_by_refl]]].
      destruct (handler_same_elsewhere env j incoming0 p_mode p_duration now
                  st) as (_ & _ & Hs).
      destruct (Hs i) as [E1 E2]; [done |].
      split; [done |]. split; [done |]. apply handler_grows_any. }
    destruct Hsame as (E1 & E2 & (evs & Ht & _)).
    destruct (IH (S j) st1) as [Hfree (evs' & Ht' & Hin)];
      [lia | by rewrite E1 | done | by rewrite E2 | done |].
    split; [done |]. exists (evs ++ evs').
    rewrite Ht', Ht, app_assoc. split; [done |].
    rewrite closes_of_app, elem_of_app. by right.
Qed.

(** X16: a round of the loop ends every connection it reads from.  A
    client slot that holds a connection when [poll] is called and that
    [poll] reports readable is free in both tables when the round is over,
    and its descriptor has been closed, whatever the client sent, whatever
    the other clients did in the round and whatever connected. *)
Theorem readable_connection_closed_in_round (env : os_env)
    (pr : poll_result) (p_mode : persistence_mode_t) (p_duration now : Z)
    (st : server) (i : nat) (p : pollfd) (c : client_t)
    (incoming : option bytes) :
  1 ≤ i ≤ MAX_CLIENTS →
  fds st !! i = Some p → pfd_fd p ≠ (-1)%Z → clients st !! i = Some c →
  readable pr i = Some incoming →
  let st' := serve_round env pr p_mode p_duration now st in
  pfd_fd <$> fds st' !! i = Some (-1)%Z
  ∧ c_fd <$> clients st' !! i = Some (-1)%Z
  ∧ ∃ evs, trace (os st') = trace (os st) ++ evs
           ∧ pfd_fd p ∈ closes_of evs.
Proof.
  intros Hi Hp Hfd Hc Hready. cbv zeta. unfold serve_round. cbv zeta.
  set (st1 := match accepted pr with
              | Some new_socket => handle_new_connection new_socket st
              | None => st
              end).
  assert (Hsame : fds st1 !! i = Some p ∧ clients st1 !! i = Some c
                  ∧ grows_by (λ _, True) (os st) (os st1)).
  { subst st1. destruct (accepted pr) as [new_socket |];
      [| by split; [| split; [| apply grows_by_refl]]].
    split; [| split; [| apply accept_grows_any]].
    - destruct (Z.ltb_spec new_socket 0) as [Hneg | Hpos].
      + unfold handle_new_connection.
        by destruct (Z.ltb_spec new_socket 0); [| lia].
      + rewrite handle_new_connection_accepted by done.
        destruct (first_free_slot _ _ _) as [k |] eqn:E; [| done].
        apply first_free_slot_found in E as (_ & q & Hq & Hfree).
        cbn [fds]. rewrite list_lookup_alter_ne; [done |].
        intros ->. congruence.
    - destruct (Z.ltb_spec new_socket 0) as [Hneg | Hpos].
      + unfold handle_new_connection.
        by destruct (Z.ltb_spec new_socket 0); [| lia].
      + rewrite handle_new_connection_accepted by done.
        destruct (first_free_slot _ _ _) as [k |] eqn:E; [| done].
        apply first_free_slot_found in E as (_ & q & Hq & Hfree).
        cbn [clients]. rewrite list_lookup_alter_ne; [done |].
        intros ->. congruence. }
  destruct Hsame as (Hp1 & Hc1 & (evs0 & Ht0 & _)).
  assert (Hrev : revents_of (fds st) (readable pr) i = Some incoming).
  { unfold revents_of. rewrite Hp. by destruct (decide _). }
  destruct (serve_clients_frees env MAX_CLIENTS 1 i
              (revents_of (fds st) (readable pr)) p_mode p_duration now st1
              p c incoming) as [[H1 H2] (evs & Ht & Hin)];
    [lia | done | done | done | done |].
  split; [done |]. split; [done |]. exists (evs0 ++ evs).
  rewrite Ht, Ht0, app_assoc. split; [done |].
  rewrite closes_of_app, elem_of_app. by right.
Qed.

Lemma readable_connection_closed_in_round_witness :
  let st' :=
    serve_round reliable_os (PollResult (Some 7%Z) (only_slot 2 (lit "hello")))
      PERSIST_ALL 0 100 two_clients in
  pfd_fd <$> fds st' !! 2 = Some (-1)%Z
  ∧ c_fd <$> clients st' !! 2 = Some (-1)%Z
  ∧ ∃ evs, trace (os st') = trace (os two_clients) ++ evs
           ∧ 6%Z ∈ closes_of evs.
Proof.
  apply (readable_connection_closed_in_round reliable_os
           (PollResult (Some 7%Z) (only_slot 2 (lit "hello"))) PERSIST_ALL 0
           100 two_clients 2 (Pollfd 6 POLLIN)
           (Client 6 CLIENT_TYPE_UNKNOWN []) (Some (lit "hello"))).
  - unfold MAX_CLIENTS. lia.
  - reflexivity.
  - discriminate.
  - reflexivity.
  - reflexivity.
Defined.

(** ** The two clients and the broker *)





(** What a subscription asks of the operating system: the notice, the
    replay of the log of the topic to the descriptor, and then the notice
    and the [close] of the branch of line 291. *)
Lemma subscribe_os (env : os_env) (i : nat) (d : bytes)
    (p_mode : persistence_mode_t) (p_duration now : Z) (st : server)
    (p : pollfd) (c : client_t) :
  fds st !! i = Some p →
  clients st !! i = Some c →
  c_type c = CLIENT_TYPE_UNKNOWN →
  let buffer := cstr (take (BUFFER_SIZE - 1) d) in
  starts_with (lit "SUB ") buffer = true →
  let topic := take_until LF (drop 4 buffer) in
  0 < length topic < MAX_TOPIC_LEN →
  os (handle_client_data env i (Some d) p_mode p_duration now st)
  = emit (EvClose (pfd_fd p))
      (emit (EvReport (RUnexpectedData (pfd_fd p) buffer))
         (send_persisted_messages env (pfd_fd p) topic p_mode p_duration now
            (emit (EvReport (RSubscribed (pfd_fd p) topic)) (os st)))).
Proof.
  intros Hp Hc Hty buffer Hsub topic Hlen.
  unfold handle_client_data, sys_read.
  rewrite (read_positive (lit "SUB ")) by done.
  fold buffer. unfold identify_client.
  rewrite (client_at_lookup _ _ _ Hc), (pfd_at_lookup _ _ _ Hp).
  destruct (decide (c_type c = CLIENT_TYPE_UNKNOWN)) as [_ | ?]; [| done].
  rewrite Hsub.
  destruct (sub_topic_len (drop 4 buffer)) as [Hk Ht].
  fold topic in Hk, Ht. rewrite Hk in Ht. rewrite Hk, Ht.
  rewrite !bool_decide_eq_true_2 by lia. cbv zeta. cbn [andb].
  unfold publish_or_reject. rewrite (command_words_differ _ Hsub).
  cbv zeta.
  set (st1 := with_os (send_persisted_messages _ _ _ _ _ _) _).
  assert (Hc1 : clients st1 !! i
                = Some (Client (c_fd c) CLIENT_TYPE_SUBSCRIBER topic)).
  { subst st1. unfold with_os, set_client_topic, set_client_type.
    cbn [fds clients os]. rewrite !list_lookup_alter_eq, Hc. done. }
  assert (Hp1 : fds st1 !! i = Some p) by done.
  rewrite (client_at_lookup _ _ _ Hc1). cbn [c_type].
  destruct (decide (CLIENT_TYPE_SUBSCRIBER = CLIENT_TYPE_SUBSCRIBER));
    [| done].
  rewrite drop_client_os. subst st1.
  unfold pfd_at, client_at, with_os, set_client_topic, set_client_type.
  cbn [fds clients os]. by rewrite !list_lookup_alter_eq, Hc, Hp.
Qed.

Lemma all_writes_replay_events (env : os_env) (fd : Z) (topic : bytes)
    (dir : gmap bytes bytes) :
  all_writes (all_replay_events env fd topic dir)
  = map (λ l, (fd, cstr l)) (file_lines (default [] (dir !! log_path topic))).
Proof.
  unfold all_replay_events.
  destruct (dir !! log_path topic) as [content |]; [| done].
  cbn [default]. apply all_writes_lines.
Qed.

(** X18: what [subscriber] asks for is what the broker replays.  For a
    topic of 1 to 49 characters without a newline, sent by a client still
    unknown and read in one piece, under [PERSIST_ALL], the only bytes
    written to any socket in the call are the log of that topic, sent to
    the subscriber line by line; for a log without NUL bytes they are,
    put together, exactly the log. *)
Theorem subscriber_gets_the_log (env : os_env) (i : nat) (topic : bytes)
    (p_duration now : Z) (st : server) (p : pollfd) (c : client_t) :
  fds st !! i = Some p →
  clients st !! i = Some c →
  c_type c = CLIENT_TYPE_UNKNOWN →
  0 < length (cstr topic) < MAX_TOPIC_LEN →
  LF ∉ cstr topic →
  let st' :=
    handle_client_data env i (Some (subscriber_message topic)) PERSIST_ALL
      p_duration now st in
  let sent := all_writes (events_since (os st) (os st')) in
  sent = map (λ l, (pfd_fd p, cstr l))
           (file_lines (log_of (cstr topic) (os st)))
  ∧ (NUL ∉ log_of (cstr topic) (os st) →
     concat (map snd sent) = log_of (cstr topic) (os st)).
Proof.
  intros Hp Hc Hty Hlen Hlf. cbv zeta.
  set (d := subscriber_message topic).
  assert (Hd : d = lit "SUB " ++ cstr topic).
  { unfold d, subscriber_message. apply take_ge. rewrite length_app.
    cbn [length lit list_ascii_of_string]. unfold MAX_TOPIC_LEN in Hlen. lia. }
  assert (Hbuf : cstr (take (BUFFER_SIZE - 1) d) = d).
  { rewrite take_ge.
    - apply cstr_id. rewrite Hd, not_elem_of_app.
      split; [decide_now | apply cstr_free].
    - rewrite Hd, length_app. cbn [length lit list_ascii_of_string].
      unfold BUFFER_SIZE, MAX_TOPIC_LEN in *. lia. }
  assert (Hsub : starts_with (lit "SUB ") d = true).
  { unfold starts_with. apply bool_decide_eq_true. rewrite Hd.
    by rewrite take_app_length. }
  assert (Htopic : take_until LF (drop 4 d) = cstr topic).
  { rewrite Hd. change 4 with (length (lit "SUB ")).
    rewrite drop_app_length. by apply take_until_absent. }
  assert (Hsent :
    all_writes
      (events_since (os st)
         (os (handle_client_data env i (Some d) PERSIST_ALL p_duration now st)))
    = map (λ l, (pfd_fd p, cstr l)) (file_lines (log_of (cstr topic) (os st)))).
  { rewrite (subscribe_os env i d PERSIST_ALL p_duration now st p c Hp Hc Hty)
      by (rewrite Hbuf, ?Htopic; (done || lia)).
    rewrite Hbuf, Htopic, all_replay_spec.
    unfold events_since, emit. cbn [trace files].
    rewrite <- !app_assoc, drop_app_length, !all_writes_app.
    rewrite all_writes_replay_events. cbn [all_writes omap app].
    by rewrite app_nil_r. }
  split; [exact Hsent |]. intros Hnul. rewrite Hsent.
  by apply replayed_bytes.
Qed.

Lemma subscriber_gets_the_log_witness :
  let st :=
    Server (fds two_clients) (clients two_clients)
      (World {[ log_path (lit "t") := lit "one" ++ LF :: lit "two" ]} []) in
  let st' :=
    handle_client_data reliable_os 1 (Some (subscriber_message (lit "t")))
      PERSIST_ALL 0 100 st in
  all_writes (events_since (os st) (os st'))
  = [(5%Z, lit "one" ++ [LF]); (5%Z, lit "two")].
Proof.
  cbv zeta.
  destruct (subscriber_gets_the_log reliable_os 1 (lit "t") 0 100
              (Server (fds two_clients) (clients two_clients)
                 (World {[ log_path (lit "t") := lit "one" ++ LF :: lit "two" ]}
                    []))
              (Pollfd 5 POLLIN) (Client 5 CLIENT_TYPE_UNKNOWN []))
    as [H _].
  - reflexivity.
  - reflexivity.
  - reflexivity.
  - change (length (cstr (lit "t"))) with 1. unfold MAX_TOPIC_LEN. lia.
  - decide_now.
  - rewrite H. vm_compute. reflexivity.
Defined.

(** ** utils.c *)

(** X19: [set_non_blocking] on an open descriptor whose flags can be
    set.  Afterwards the flags of the descriptor have every bit of
    [O_NONBLOCK], and otherwise the bits they had; the flags of the other
    descriptors are as they were; nothing is reported; and a second call
    changes nothing more. *)
Theorem set_non_blocking_adds_the_flag (O_NONBLOCK : Z)
    (setfl_ok : Z → Z → bool) (fd flags : Z) (flags_of : gmap Z Z) :
  (0 ≤ O_NONBLOCK)%Z → (0 ≤ flags)%Z →
  flags_of !! fd = Some flags →
  setfl_ok fd (Z.lor flags O_NONBLOCK) = true →
  let after := fst (set_non_blocking O_NONBLOCK setfl_ok fd flags_of) in
  snd (set_non_blocking O_NONBLOCK setfl_ok fd flags_of) = None
  ∧ (∃ flags',
       after !! fd = Some flags'
       ∧ Z.land flags' O_NONBLOCK = O_NONBLOCK
       ∧ ∀ k, Z.testbit O_NONBLOCK k = false →
              Z.testbit flags' k = Z.testbit flags k)
  ∧ (∀ other, other ≠ fd → after !! other = flags_of !! other)
  ∧ set_non_blocking O_NONBLOCK setfl_ok fd after = (after, None).
Proof.
  intros Ho Hf Hfd Hok. cbv zeta.
  assert (Hpos : (0 ≤ Z.lor flags O_NONBLOCK)%Z) by by apply Z.lor_nonneg.
  assert (Hrun : set_non_blocking O_NONBLOCK setfl_ok fd flags_of
                 = (<[fd := Z.lor flags O_NONBLOCK]> flags_of, None)).
  { unfold set_non_blocking, fcntl_getfl. rewrite Hfd. cbn [default id].
    cbv zeta. destruct (decide (flags = (-1)%Z)); [lia |]. by rewrite Hok. }
  rewrite Hrun. cbn [fst snd]. split; [done |]. split; [| split].
  - exists (Z.lor flags O_NONBLOCK). rewrite lookup_insert_eq.
    split; [done |]. split.
    + apply Z.bits_inj'. intros k _. rewrite Z.land_spec, Z.lor_spec.
      by destruct (Z.testbit flags k), (Z.testbit O_NONBLOCK k).
    + intros k Hk. rewrite Z.lor_spec, Hk. apply orb_false_r.
  - intros other Hne. by rewrite lookup_insert_ne.
  - unfold set_non_blocking, fcntl_getfl. rewrite lookup_insert_eq.
    cbn [default id]. cbv zeta.
    destruct (decide (Z.lor flags O_NONBLOCK = (-1)%Z)); [lia |].
    rewrite <- Z.lor_assoc, Z.lor_diag, Hok. by rewrite insert_insert_eq.
Qed.

Lemma set_non_blocking_adds_the_flag_witness :
  set_non_blocking 2048 (λ _ _, true) 5 {[ 5%Z := 2%Z ]}
  = ({[ 5%Z := 2050%Z ]}, None)
  ∧ set_non_blocking 2048 (λ _ _, true) 5 {[ 5%Z := 2050%Z ]}
    = ({[ 5%Z := 2050%Z ]}, None).
Proof.
  destruct (set_non_blocking_adds_the_flag 2048 (λ _ _, true) 5 2
              {[ 5%Z := 2%Z ]}) as (_ & _ & _ & H);
    [lia | lia | reflexivity | reflexivity |].
  assert (E : set_non_blocking 2048 (λ _ _, true) 5 {[ 5%Z := 2%Z ]}
              = ({[ 5%Z := 2050%Z ]}, None)).
  { unfold set_non_blocking, fcntl_getfl. rewrite lookup_singleton_eq.
    cbn. by rewrite insert_singleton_eq. }
  rewrite E in H. cbn [fst] in H. split; [exact E | exact H].
Defined.

(** ** A round of the loop and the connection it accepts *)

Lemma serve_clients_keeps_served (env : os_env) (Q : server → Prop)
    (revents : nat → option (option bytes)) (p_mode : persistence_mode_t)
    (p_duration now : Z) (n i : nat) (st : server) :
  (∀ k incoming st0,
     revents k = Some incoming →
     Q st0 → Q (handle_client_data env k incoming p_mode p_duration now st0)) →
  Q st → Q (serve_clients env n i revents p_mode p_duration now st).
Proof.
  revert i st. induction n as [| n IH]; intros i st Hstep HQ; [done |].
  cbn [serve_clients]. apply IH; [done |].
  destruct (revents i) as [incoming |] eqn:E; [| done].
  destruct (decide _); [| done]. by apply Hstep.
Qed.

(** X20: a connection is not served in the round that accepts it.  The
    slot it is given was free when [poll] was called, so that the round
    leaves it as [handle_new_connection] filled it, whatever [poll] reports
    and whatever the other clients send; its first message is read in a
    later round. *)
Theorem accepted_connection_survives_round (env : os_env)
    (ready : nat → option (option bytes)) (p_mode : persistence_mode_t)
    (p_duration now : Z) (st : server) (new_socket : Z) (k : nat)
    (c : client_t) :
  (0 ≤ new_socket)%Z →
  first_free_slot MAX_CLIENTS 1 (fds st) = Some k →
  clients st !! k = Some c →
  let st' :=
    serve_round env (PollResult (Some new_socket) ready) p_mode p_duration
      now st in
  fds st' !! k = Some (Pollfd new_socket POLLIN)
  ∧ clients st' !! k = Some (Client new_socket (c_type c) (c_topic c)).
Proof.
  intros Hsock Hslot Hc. cbv zeta. unfold serve_round. cbn [accepted readable].
  rewrite handle_new_connection_accepted, Hslot by done.
  apply first_free_slot_found in Hslot as (_ & p & Hp & Hfree).
  apply (serve_clients_keeps_served env
           (λ s, fds s !! k = Some (Pollfd new_socket POLLIN)
                 ∧ clients s !! k
                   = Some (Client new_socket (c_type c) (c_topic c)))).
  - intros j incoming st0 Hrev [H1 H2].
    assert (Hne : k ≠ j).
    { intros <-. unfold revents_of in Hrev. rewrite Hp in Hrev.
      by destruct (decide (pfd_fd p = (-1)%Z)). }
    destruct (handler_same_elsewhere env j incoming p_mode p_duration now st0)
      as (_ & _ & Hsame).
    destruct (Hsame k Hne) as [E1 E2]. by rewrite E1, E2.
  - cbn [fds clients]. by rewrite !list_lookup_alter_eq, Hp, Hc.
Qed.

Lemma accepted_connection_survives_round_witness :
  let st' :=
    serve_round reliable_os
      (PollResult (Some 7%Z) (λ _, Some (Some (lit "hello")))) PERSIST_NONE 0
      100 two_clients in
  fds st' !! 3 = Some (Pollfd 7 POLLIN)
  ∧ clients st' !! 3 = Some (Client 7 CLIENT_TYPE_UNKNOWN []).
Proof.
  apply (accepted_connection_survives_round reliable_os
           (λ _, Some (Some (lit "hello"))) PERSIST_NONE 0 100 two_clients 7 3
           free_client).
  - lia.
  - reflexivity.
  - reflexivity.
Defined.

(** ** The format error of the forwarding loop *)

Lemma forward_loop_fit_grows (P : event → Prop) (env : os_env) (n j : nat)
    (table : list pollfd) (cls : list client_t) (pub_topic msg : bytes)
    (w w1 : world) :
  length (frame pub_topic msg) < BUFFER_SIZE →
  (∀ fd data, P (EvWrite fd data)) →
  P (EvReport RWriteFailed) →
  grows_by P w w1 →
  grows_by P w (forward_loop env n j table cls pub_topic msg w1).
Proof.
  intros Hfit Hw Hr. revert j w1.
  induction n as [| n IH]; intros j w1 H; [done |].
  cbn [forward_loop]. apply IH. unfold forward_to_slot. cbv zeta.
  destruct (_ && _); [| done].
  rewrite bool_decide_eq_false_2 by lia. by apply grows_by_sys_write.
Qed.

(** X21: the handler never reports the format error of line 272.  The
    frame [MSG <topic>\n<message>] of a publish is exactly as long as the
    publish that was read, which [read] limits to 1023 bytes, so that the
    test [bytes_to_send >= BUFFER_SIZE] fails for every subscriber and
    every publish: no subscriber is ever skipped for it. *)
Theorem format_error_never_reported (env : os_env) (i : nat)
    (incoming : option bytes) (p_mode : persistence_mode_t)
    (p_duration now : Z) (st : server) :
  let st' := handle_client_data env i incoming p_mode p_duration now st in
  ∀ fd, EvReport (RFormatError fd) ∉ events_since (os st) (os st').
Proof.
  cbv zeta. intros fd Hin.
  pose proof (handler_grows (λ e, ∀ fd, e ≠ EvReport (RFormatError fd))
                env i incoming p_mode p_duration now st) as H.
  apply grows_by_events in H.
  - rewrite Forall_forall in H. by apply (H _ Hin fd).
  - intros r Hr fd' E. injection E as ->. done.
  - intros e He fd' E. subst e. done.
  - done.
  - intros pub_topic msg w1 Hfit H1. by apply forward_loop_fit_grows.
Qed.

(** ** The frame of a publish and the frame buffer *)



